(** * WalletConnect backend SDK: session registry, timeout tracker, stores

    A shallow embedding of the session-lifecycle layer of the repository:
    - [src/core/WalletConnectSDK.ts]  (SimpleDatabase, WalletConnectSDK),
    - [src/utils/TimeoutManager.ts]   (TimeoutError, TimeoutManager),
    - [src/storage/MemoryStorage.ts]  (MemoryStorage),
    - the SQLite adapter              (SQLiteDatabase.cleanupExpiredSessions).

    Conventions of the embedding.
    - A JavaScript [Map] is an insertion-ordered association list ([JsMap]).
    - [UserSession] objects are shared by reference between the registry
      ([userSessions]) and the [SimpleDatabase]; they live on a [heap] and
      the two maps hold references into it.
    - Every [async] method is a computation in the monad [M]: a state
      transformer over the SDK's [World] whose result is a settled promise
      ([Resolved] or [Rejected]) or a promise that never settles ([Forever]).
      A method runs without interleaving with other methods.
    - Dates are their [getTime()] value, an integer number of milliseconds;
      the clock only moves while an external collaborator is awaited.
    - The progress tracker computes with IEEE-754 doubles: binary64 of
      the Standard Library's [SpecFloat] ([prec = 53], [emax = 1024]).
    - The protocol client, the ABI codec, the QR encoder and the deep-link
      table are collaborators outside the repository: they are the fields
      of an [Env], over which everything is quantified. *)

From Stdlib Require Import ZArith Lia Bool Ascii String HexadecimalString.
From Stdlib Require Import Floats.SpecFloat.
From stdpp Require Import base tactics decidable option list strings pretty.

Local Open Scope string_scope.
Local Open Scope list_scope.
Local Open Scope Z_scope.

(** ** JavaScript values *)

(** Truthiness of an optional string field ([undefined] and [''] are falsy). *)
Definition truthy (o : option string) : bool :=
  match o with
  | Some s => negb (bool_decide (s = ""))
  | None => false
  end.

(** [o || d] on an optional string. *)
Definition or_default (o : option string) (d : string) : string :=
  if truthy o then default d o else d.

(** Opaque payloads (ABI fragments, call arguments, decoded results,
    namespaces of an approval). *)
#[warnings="-register-all"]
Inductive Json :=
  | JNull
  | JStr (s : string)
  | JNum (z : Z)
  | JList (l : list Json)
  | JObj (fields : list (string * Json)).

(** A field that may be [undefined]. *)
Definition opt {A} (f : A -> Json) (o : option A) : Json :=
  match o with
  | Some a => f a
  | None => JNull
  end.

(** [n || 1] on an optional number. *)
Definition or_one (o : option Z) : Z :=
  match o with
  | Some n => if n =? 0 then 1 else n
  | None => 1
  end.

(** [n.toString(16)] of a bigint *)
Definition toString16 (n : Z) : string :=
  match n with
  | Z0 => "0"
  | Zpos p => NilEmpty.string_of_uint (Pos.to_hex_uint p)
  | Zneg p => String "-" (NilEmpty.string_of_uint (Pos.to_hex_uint p))
  end.

(** [s.trim() === ''] *)
Definition is_space (a : ascii) : bool :=
  let n := nat_of_ascii a in
  ((9 <=? n) && (n <=? 13) || (n =? 32))%nat.

Fixpoint blank (s : string) : bool :=
  match s with
  | EmptyString => true
  | String a s' => is_space a && blank s'
  end.

(** [s.split(':')] *)
Fixpoint split_colon_aux (acc s : string) : list string :=
  match s with
  | EmptyString => [String.rev acc]
  | String a s' =>
      if Ascii.eqb a ":"%char then String.rev acc :: split_colon_aux "" s'
      else split_colon_aux (String a acc) s'
  end.

Definition split_colon (s : string) : list string := split_colon_aux "" s.

(** ** [Map<string, V>] with insertion order *)

Module JsMap.
Section defs.
Context {V : Type}.

Definition t := list (string * V).

Definition empty : t := [].

Fixpoint get (k : string) (m : t) : option V :=
  match m with
  | [] => None
  | (k', v) :: m' => if decide (k = k') then Some v else get k m'
  end.

Definition has (k : string) (m : t) : bool :=
  match get k m with Some _ => true | None => false end.

(** [set] keeps the position of an existing key and appends a new one. *)
Fixpoint set (k : string) (v : V) (m : t) : t :=
  match m with
  | [] => [(k, v)]
  | (k', v') :: m' =>
      if decide (k = k') then (k, v) :: m' else (k', v') :: set k v m'
  end.

Fixpoint delete (k : string) (m : t) : t :=
  match m with
  | [] => []
  | (k', v') :: m' =>
      if decide (k = k') then delete k m' else (k', v') :: delete k m'
  end.

Definition keys (m : t) : list string := map fst m.
Definition values (m : t) : list V := map snd m.
Definition size (m : t) : nat := length m.
End defs.
Arguments t : clear implicits.
End JsMap.

(** ** Sessions *)

Abbreviation ClientId := nat.   (* identity of a SignClient instance *)
Abbreviation Ref := nat.        (* identity of a UserSession object *)

(** [interface UserSession] *)
Record UserSession := mkSession {
  userId : string;
  wcClient : ClientId;
  topic : option string;
  address : option string;
  sessionData : option Json;
  isActive : bool;
  createdAt : Z;
  updatedAt : Z;
  lastActivity : Z
}.

Definition set_wcClient (c : ClientId) (s : UserSession) : UserSession :=
  mkSession (userId s) c (topic s) (address s) (sessionData s)
            (isActive s) (createdAt s) (updatedAt s) (lastActivity s).
Definition set_topic (t : option string) (s : UserSession) : UserSession :=
  mkSession (userId s) (wcClient s) t (address s) (sessionData s)
            (isActive s) (createdAt s) (updatedAt s) (lastActivity s).
Definition set_address (a : option string) (s : UserSession) : UserSession :=
  mkSession (userId s) (wcClient s) (topic s) a (sessionData s)
            (isActive s) (createdAt s) (updatedAt s) (lastActivity s).
Definition set_sessionData (d : option Json) (s : UserSession) : UserSession :=
  mkSession (userId s) (wcClient s) (topic s) (address s) d
            (isActive s) (createdAt s) (updatedAt s) (lastActivity s).
Definition set_isActive (b : bool) (s : UserSession) : UserSession :=
  mkSession (userId s) (wcClient s) (topic s) (address s) (sessionData s)
            b (createdAt s) (updatedAt s) (lastActivity s).
Definition set_updatedAt (z : Z) (s : UserSession) : UserSession :=
  mkSession (userId s) (wcClient s) (topic s) (address s) (sessionData s)
            (isActive s) (createdAt s) z (lastActivity s).
Definition set_lastActivity (z : Z) (s : UserSession) : UserSession :=
  mkSession (userId s) (wcClient s) (topic s) (address s) (sessionData s)
            (isActive s) (createdAt s) (updatedAt s) z.

(** ** Timeout configuration *)

(** [keyof TimeoutConfig] *)
Inductive TimeoutKind :=
  | connection | transaction | signing | contractCall
  | contractRead | gasEstimation | sessionExpiry | cleanup.

Global Instance TimeoutKind_eq_dec : EqDecision TimeoutKind.
Proof. solve_decision. Defined.

(** [interface TimeoutConfig] *)
Record TimeoutConfig := mkTimeouts {
  t_connection : Z;
  t_transaction : Z;
  t_signing : Z;
  t_contractCall : Z;
  t_contractRead : Z;
  t_gasEstimation : Z;
  t_sessionExpiry : Z;
  t_cleanup : Z
}.

Definition DEFAULT_TIMEOUTS : TimeoutConfig :=
  mkTimeouts 30000 60000 30000 60000 15000 15000
             (24 * 60 * 60 * 1000) (5 * 60 * 1000).

(** [this.timeouts[type]] *)
Definition timeout_of (c : TimeoutConfig) (k : TimeoutKind) : Z :=
  match k with
  | connection => t_connection c
  | transaction => t_transaction c
  | signing => t_signing c
  | contractCall => t_contractCall c
  | contractRead => t_contractRead c
  | gasEstimation => t_gasEstimation c
  | sessionExpiry => t_sessionExpiry c
  | cleanup => t_cleanup c
  end.

(** [Partial<TimeoutConfig>] and the spread [{ ...base, ...partial }] *)
Definition PartialTimeouts := TimeoutKind -> option Z.

Definition no_overrides : PartialTimeouts := fun _ => None.

Definition merge_timeouts (base : TimeoutConfig) (p : PartialTimeouts)
  : TimeoutConfig :=
  mkTimeouts
    (default (t_connection base) (p connection))
    (default (t_transaction base) (p transaction))
    (default (t_signing base) (p signing))
    (default (t_contractCall base) (p contractCall))
    (default (t_contractRead base) (p contractRead))
    (default (t_gasEstimation base) (p gasEstimation))
    (default (t_sessionExpiry base) (p sessionExpiry))
    (default (t_cleanup base) (p cleanup)).

(** ** Thrown values and promises *)

Inductive Thrown :=
  | WalletConnectSDKError (message code : string)
  | TimeoutError (message operation : string) (timeout : Z)
  | Error (message : string)
  | NonError.

(** [error instanceof Error ? error.message : 'Unknown error'] *)
Definition error_message (e : Thrown) : string :=
  match e with
  | WalletConnectSDKError m _ => m
  | TimeoutError m _ _ => m
  | Error m => m
  | NonError => "Unknown error"
  end.

Inductive Outcome (A : Type) :=
  | Resolved (a : A)
  | Rejected (e : Thrown)
  | Forever.
Arguments Resolved {A} a.
Arguments Rejected {A} e.
Arguments Forever {A}.

(** What an external collaborator answers to an asynchronous call: it
    settles after [delay] milliseconds, or never. *)
Inductive Reply (A : Type) :=
  | Settles (delay : Z) (r : A + Thrown)
  | Never.
Arguments Settles {A} delay r.
Arguments Never {A}.

(** ** Observable effects *)

Inductive Effect :=
  | SignClientInit (c : ClientId)
  | Handshake (c : ClientId) (methods : list string) (chains : list string)
              (events : list string)
  | RpcRequest (c : ClientId) (topic chainId method : string) (params : Json)
  | RemoteDisconnect (c : ClientId) (topic : string) (code : Z) (message : string)
  | QrEncode (uri : string)
  | DbConnect
  | DbDisconnect
  | ClearInterval
  | SetTimeout (operation : string) (timeout : Z)
  | ClearTimeout (operation : string)
  | Emit (type : string) (user : option string).

(** Calls that leave the process through the protocol client. *)
Definition is_network (e : Effect) : bool :=
  match e with
  | SignClientInit _ | Handshake _ _ _ _ | RpcRequest _ _ _ _ _
  | RemoteDisconnect _ _ _ _ => true
  | _ => false
  end.

(** ** The state of one SDK instance *)

Record World := mkWorld {
  heap : list UserSession;              (* UserSession objects *)
  userSessions : JsMap.t Ref;           (* WalletConnectSDK.userSessions *)
  db_sessions : JsMap.t Ref;            (* SimpleDatabase.sessions *)
  db_isConnectedFlag : bool;            (* SimpleDatabase.isConnectedFlag *)
  timeouts : TimeoutConfig;             (* TimeoutManager.timeouts *)
  timers : JsMap.t Z;                   (* TimeoutManager.timers: deadlines *)
  cleanupInterval : option Z;           (* WalletConnectSDK.cleanupInterval *)
  isInitialized : bool;
  clock : Z;                            (* Date.now() *)
  nextClient : ClientId;                (* instances made by SignClient.init *)
  trace : list Effect
}.

Definition with_heap (h : list UserSession) (w : World) : World :=
  mkWorld h (userSessions w) (db_sessions w) (db_isConnectedFlag w)
          (timeouts w) (timers w) (cleanupInterval w) (isInitialized w)
          (clock w) (nextClient w) (trace w).
Definition with_userSessions (m : JsMap.t Ref) (w : World) : World :=
  mkWorld (heap w) m (db_sessions w) (db_isConnectedFlag w)
          (timeouts w) (timers w) (cleanupInterval w) (isInitialized w)
          (clock w) (nextClient w) (trace w).
Definition with_db_sessions (m : JsMap.t Ref) (w : World) : World :=
  mkWorld (heap w) (userSessions w) m (db_isConnectedFlag w)
          (timeouts w) (timers w) (cleanupInterval w) (isInitialized w)
          (clock w) (nextClient w) (trace w).
Definition with_db_isConnectedFlag (b : bool) (w : World) : World :=
  mkWorld (heap w) (userSessions w) (db_sessions w) b
          (timeouts w) (timers w) (cleanupInterval w) (isInitialized w)
          (clock w) (nextClient w) (trace w).
Definition with_timeouts (c : TimeoutConfig) (w : World) : World :=
  mkWorld (heap w) (userSessions w) (db_sessions w) (db_isConnectedFlag w)
          c (timers w) (cleanupInterval w) (isInitialized w)
          (clock w) (nextClient w) (trace w).
Definition with_timers (m : JsMap.t Z) (w : World) : World :=
  mkWorld (heap w) (userSessions w) (db_sessions w) (db_isConnectedFlag w)
          (timeouts w) m (cleanupInterval w) (isInitialized w)
          (clock w) (nextClient w) (trace w).
Definition with_cleanupInterval (i : option Z) (w : World) : World :=
  mkWorld (heap w) (userSessions w) (db_sessions w) (db_isConnectedFlag w)
          (timeouts w) (timers w) i (isInitialized w)
          (clock w) (nextClient w) (trace w).
Definition with_isInitialized (b : bool) (w : World) : World :=
  mkWorld (heap w) (userSessions w) (db_sessions w) (db_isConnectedFlag w)
          (timeouts w) (timers w) (cleanupInterval w) b
          (clock w) (nextClient w) (trace w).
Definition with_clock (z : Z) (w : World) : World :=
  mkWorld (heap w) (userSessions w) (db_sessions w) (db_isConnectedFlag w)
          (timeouts w) (timers w) (cleanupInterval w) (isInitialized w)
          z (nextClient w) (trace w).
Definition with_nextClient (c : ClientId) (w : World) : World :=
  mkWorld (heap w) (userSessions w) (db_sessions w) (db_isConnectedFlag w)
          (timeouts w) (timers w) (cleanupInterval w) (isInitialized w)
          (clock w) c (trace w).
Definition with_trace (t : list Effect) (w : World) : World :=
  mkWorld (heap w) (userSessions w) (db_sessions w) (db_isConnectedFlag w)
          (timeouts w) (timers w) (cleanupInterval w) (isInitialized w)
          (clock w) (nextClient w) t.

(** The state right after [new WalletConnectSDK(options)] at time [now]. *)
Definition new_World (customTimeouts : PartialTimeouts) (interval : option Z)
           (now : Z) : World :=
  mkWorld [] JsMap.empty JsMap.empty false
          (merge_timeouts DEFAULT_TIMEOUTS customTimeouts)
          JsMap.empty interval false now 0%nat [].

(** Network calls made so far. *)
Definition network (w : World) : list Effect := filter is_network (trace w).

(** ** The monad of asynchronous methods *)

Definition M (A : Type) : Type := World -> Outcome A * World.

Definition ret {A} (a : A) : M A := fun w => (Resolved a, w).

Definition bind {A B} (m : M A) (k : A -> M B) : M B :=
  fun w =>
    match m w with
    | (Resolved a, w') => k a w'
    | (Rejected e, w') => (Rejected e, w')
    | (Forever, w') => (Forever, w')
    end.

Definition throw {A} (e : Thrown) : M A := fun w => (Rejected e, w).

(** [try { body } catch (error) { handler }] *)
Definition try_catch {A} (body : M A) (handler : Thrown -> M A) : M A :=
  fun w =>
    match body w with
    | (Rejected e, w') => handler e w'
    | r => r
    end.

(** [promise.finally(() => { cleanup })] for a cleanup that cannot throw. *)
Definition finally {A} (body : M A) (cleanup : World -> World) : M A :=
  fun w =>
    match body w with
    | (Forever, w') => (Forever, w')
    | (o, w') => (o, cleanup w')
    end.

Definition gets {A} (f : World -> A) : M A := fun w => (Resolved (f w), w).
Definition modify (f : World -> World) : M unit := fun w => (Resolved tt, f w).
Definition effect (e : Effect) : M unit :=
  modify (fun w => with_trace (trace w ++ [e]) w).

(** [await] of a collaborator's promise. *)
Definition await {A} (r : Reply A) : M A :=
  fun w =>
    match r with
    | Settles d (inl a) => (Resolved a, with_clock (clock w + Z.max 0 d) w)
    | Settles d (inr e) => (Rejected e, with_clock (clock w + Z.max 0 d) w)
    | Never => (Forever, w)
    end.

(** A synchronous collaborator call that returns or throws. *)
Definition call {A} (r : A + Thrown) : M A :=
  match r with
  | inl a => ret a
  | inr e => throw e
  end.

Notation "'let*' x ':=' m 'in' k" := (bind m (fun x => k))
  (at level 10, x name, m at level 100, k at level 200).
Notation "m ';;;' k" := (bind m (fun _ => k))
  (at level 100, k at level 200, right associativity).

(** [for (const x of xs) { await body(x) }] *)
Fixpoint for_each {A} (xs : list A) (body : A -> M unit) : M unit :=
  match xs with
  | [] => ret tt
  | x :: xs' => body x ;;; for_each xs' body
  end.

(** Reading and writing a session object. *)
Definition deref (r : Ref) : M UserSession :=
  fun w =>
    match heap w !! r with
    | Some s => (Resolved s, w)
    | None => (Rejected (Error "TypeError: Cannot read properties of undefined"), w)
    end.

Definition assign (r : Ref) (f : UserSession -> UserSession) : M unit :=
  modify (fun w => with_heap (alter f r (heap w)) w).

(** [new] of a session object: the reference of the fresh object. *)
Definition alloc (s : UserSession) : M Ref :=
  fun w => (Resolved (length (heap w)), with_heap (heap w ++ [s]) w).

Definition Date_now : M Z := gets clock.

(** ** Requests and responses ([src/types]) *)

Record WalletDeepLink := mkDeepLink {
  wallet : string;
  universal : string;
  native : string;
  web : option string
}.

Record ConnectionRequest := mkConnectionRequest {
  cr_userId : string;
  cr_chainId : option Z;
  cr_methods : option (list string);
  cr_events : option (list string)
}.

Record ConnectionResponse := mkConnectionResponse {
  c_success : bool;
  c_uri : option string;
  c_qrCode : option string;
  c_topic : option string;
  c_error : option string;
  c_deepLinks : option (list WalletDeepLink);
  c_timeout : option Z;
  c_estimatedTime : option Z
}.

Record TransactionRequest := mkTransactionRequest {
  tx_userId : string;
  tx_to : string;
  tx_data : option string;
  tx_value : option Z;
  tx_gas : option Z;
  tx_maxFeePerGas : option Z;
  tx_maxPriorityFeePerGas : option Z;
  tx_nonce : option Z;
  tx_chainId : option Z
}.

Record SignMessageRequest := mkSignMessageRequest {
  sm_userId : string;
  sm_message : string;
  sm_address : option string
}.

Record SignTypedDataRequest := mkSignTypedDataRequest {
  st_userId : string;
  st_value : Json;
  st_address : option string
}.

Record ContractConfig := mkContractConfig {
  k_address : string;
  k_abi : Json;
  k_chainId : option Z
}.

Record ContractCallRequest := mkContractCallRequest {
  cc_userId : string;
  cc_contract : ContractConfig;
  cc_functionName : string;
  cc_args : option (list Json);
  cc_value : option Z;
  cc_gas : option Z;
  cc_maxFeePerGas : option Z;
  cc_maxPriorityFeePerGas : option Z;
  cc_nonce : option Z
}.

Record ContractReadRequest := mkContractReadRequest {
  rd_userId : string;
  rd_contract : ContractConfig;
  rd_functionName : string;
  rd_args : option (list Json);
  rd_blockNumber : option Z
}.

(** [TransactionResponse], [SignResponse], [ContractCallResponse],
    [ContractReadResponse] and the result of [estimateGas] share the shape
    [{success, <payload>?, error?}]; [payload] names the field that is set. *)
Inductive Payload :=
  | hash (h : Json)
  | signature (s : Json)
  | data (d : Json)
  | gas (g : Z).

Record OperationResponse := mkResponse {
  success : bool;
  payload : option Payload;
  error : option string
}.

(** ** External collaborators *)

(** The first argument of an asynchronous collaborator is the number of
    effects performed so far: an answer may depend on when it is asked. *)
Record Env := mkEnv {
  projectId : string;
  SignClient_init : nat -> ClientId -> Reply unit;
  client_connect :
    nat -> ClientId -> list string -> list string -> list string ->
    Reply (option string);
  client_request :
    nat -> ClientId -> string -> string -> string -> Json -> Reply Json;
  client_disconnect : nat -> ClientId -> string -> Reply unit;
  qrcode_toDataURL : string -> Reply (option string);
  encodeFunctionData : Json -> string -> list Json -> string + Thrown;
  decodeFunctionData : Json -> Json -> Json + Thrown;
  JSON_stringify : Json -> string;
  BigInt : Json -> Z + Thrown;
  generateDeepLinks : string -> list WalletDeepLink;
  (** whether a reply that arrives in the very millisecond of a deadline
      loses the race against the timer *)
  timer_wins_tie : bool
}.

(** [args] of the protocol client's events; [a_accounts] is the value of
    [args.params?.namespaces?.eip155?.accounts || []]. *)
Record EventArgs := mkEventArgs {
  a_topic : option string;
  a_params : option Json;
  a_accounts : list string
}.

Section SDK.
Context (env : Env).

(** The sequence number handed to asynchronous collaborators. *)
Definition tick : M nat := gets (fun w => length (trace w)).

(** ** [class TimeoutManager] *)

(** Node's [setTimeout] runs a timer whose delay is below 1 or above
    2^31-1 after 1 millisecond. *)
Definition timer_delay (timeout : Z) : Z :=
  if (timeout <? 1) || (2147483647 <? timeout) then 1 else timeout.

(** [new TimeoutManager(customTimeouts)] stores the merged configuration
    in [timeouts]; [getTimeout(type)] reads one entry. *)
Definition getTimeout (type : TimeoutKind) : M Z :=
  gets (fun w => timeout_of (timeouts w) type).

Definition getTimeouts : M TimeoutConfig := gets timeouts.

Definition updateTimeouts (newTimeouts : PartialTimeouts) : M unit :=
  modify (fun w => with_timeouts (merge_timeouts (timeouts w) newTimeouts) w).

(** [Promise.race([promise, <timer promise>])]: the timer rejects with
    [rejection] when it fires first. *)
Definition race {A} (promise : Reply A) (timeout : Z) (rejection : Thrown)
  : M A :=
  fun w =>
    let fires := timer_delay timeout in
    match promise with
    | Settles d r =>
        if (Z.max 0 d <? fires)
           || ((Z.max 0 d =? fires) && negb (timer_wins_tie env))
        then await (Settles d r) w
        else (Rejected rejection, with_clock (clock w + fires) w)
    | Never => (Rejected rejection, with_clock (clock w + fires) w)
    end.

(** The [finally] callback of [createTimeout], also [clearTimer]. *)
Definition clearTimer_ (operation : string) (w : World) : World :=
  match JsMap.get operation (timers w) with
  | Some _ =>
      with_timers (JsMap.delete operation (timers w))
        (with_trace (trace w ++ [ClearTimeout operation]) w)
  | None => w
  end.

(** The executor of the timer promise of [createTimeout]:
    [const timer = setTimeout(..., timeout); this.timers.set(operation, timer)] *)
Definition arm_timer (operation : string) (timeout : Z) : M unit :=
  effect (SetTimeout operation timeout) ;;;
  modify (fun w =>
    with_timers
      (JsMap.set operation (clock w + timer_delay timeout) (timers w)) w).

Definition createTimeout {A} (operation : string) (promise : Reply A)
           (timeoutType : TimeoutKind) : M A :=
  let* timeout := getTimeout timeoutType in
  finally
    (arm_timer operation timeout ;;;
     race promise timeout
       (TimeoutError
          (operation +:+ " timed out after " +:+ pretty timeout +:+ "ms")
          operation timeout))
    (clearTimer_ operation).

Definition waitForUserInteraction {A} (operation : string)
           (promise : Reply A) (timeoutType : TimeoutKind) : M A :=
  createTimeout operation promise timeoutType.

Definition waitForConnection {A} (operation : string) (promise : Reply A)
  : M A := waitForUserInteraction operation promise connection.
Definition waitForTransaction {A} (operation : string) (promise : Reply A)
  : M A := waitForUserInteraction operation promise transaction.
Definition waitForSigning {A} (operation : string) (promise : Reply A)
  : M A := waitForUserInteraction operation promise signing.
Definition waitForContractCall {A} (operation : string) (promise : Reply A)
  : M A := waitForUserInteraction operation promise contractCall.
Definition waitForContractRead {A} (operation : string) (promise : Reply A)
  : M A := waitForUserInteraction operation promise contractRead.
Definition waitForGasEstimation {A} (operation : string) (promise : Reply A)
  : M A := waitForUserInteraction operation promise gasEstimation.

(** [clearAllTimers]: deleting the entry under the cursor does not
    disturb the iteration of a [Map], so every timer is cleared. *)
Definition clearAllTimers : M unit :=
  let* operations := gets (fun w => JsMap.keys (timers w)) in
  for_each operations (fun operation =>
    effect (ClearTimeout operation) ;;;
    modify (fun w => with_timers (JsMap.delete operation (timers w)) w)).

Definition clearTimer (operation : string) : M unit :=
  modify (clearTimer_ operation).

(** [formatTimeout]: [Math.round(d / 1000)] is [(d + 500) / 1000] rounded
    down, the quotient being a double within a few ulps of the exact one. *)
Definition formatTimeout (duration : Z) : string :=
  if duration <? 1000 then pretty duration +:+ "ms"
  else if duration <? 60000 then pretty ((duration + 500) / 1000) +:+ "s"
  else pretty ((duration + 30000) / 60000) +:+ "m".

(** ** [class SimpleDatabase] *)

Definition db_connect : M unit :=
  effect DbConnect ;;; modify (with_db_isConnectedFlag true).

Definition db_disconnect : M unit :=
  effect DbDisconnect ;;; modify (with_db_isConnectedFlag false).

Definition db_saveSession (session : Ref) : M unit :=
  let* s := deref session in
  modify (fun w =>
    with_db_sessions (JsMap.set (userId s) session (db_sessions w)) w).

Definition db_getAllSessions : M (list Ref) :=
  gets (fun w => JsMap.values (db_sessions w)).

Definition db_deleteSession (user : string) : M unit :=
  modify (fun w => with_db_sessions (JsMap.delete user (db_sessions w)) w).


(** ** [class WalletConnectSDK] *)

Definition maxAge : Z := 24 * 60 * 60 * 1000.

Definition validateSession (session : Ref) : M bool :=
  let* s := deref session in
  if negb (isActive s) then ret false
  else if negb (truthy (topic s)) then ret false
  else
    let* now := Date_now in
    let sessionAge := now - lastActivity s in
    if maxAge <? sessionAge then
      assign session (set_isActive false) ;;;
      ret false
    else ret true.

(** [session ? this.validateSession(session) : false] *)
Definition isConnected (user : string) : M bool :=
  let* session := gets (fun w => JsMap.get user (userSessions w)) in
  match session with
  | Some r => validateSession r
  | None => ret false
  end.

(** [session && this.validateSession(session) ? session : null] *)
Definition getSession (user : string) : M (option Ref) :=
  let* session := gets (fun w => JsMap.get user (userSessions w)) in
  match session with
  | Some r =>
      let* valid := validateSession r in
      ret (if valid then Some r else None)
  | None => ret None
  end.

Fixpoint collect_valid (sessions : list Ref) : M (list Ref) :=
  match sessions with
  | [] => ret []
  | r :: rest =>
      let* valid := validateSession r in
      let* more := collect_valid rest in
      ret (if valid then r :: more else more)
  end.

Definition getAllSessions : M (list Ref) :=
  let* sessions := gets (fun w => JsMap.values (userSessions w)) in
  collect_valid sessions.

(** The first session of the registry that satisfies [p]. *)
Definition find_session (p : UserSession -> bool) (w : World) : option Ref :=
  List.find
    (fun r => match heap w !! r with Some s => p s | None => false end)
    (JsMap.values (userSessions w)).

(** [findSessionByTopic]: [session.topic === topic] *)
Definition findSessionByTopic (t : option string) : M (option Ref) :=
  gets (find_session (fun s => bool_decide (topic s = t))).

(** *** Listeners registered on a client by [createWalletConnectClient] *)

Definition on_session_connect (client : ClientId) (args : EventArgs)
  : M unit :=
  let* found := gets (find_session (fun s => bool_decide (wcClient s = client))) in
  match found with
  | Some session =>
      let* now := Date_now in
      assign session (set_topic (a_topic args)) ;;;
      assign session (set_isActive true) ;;;
      assign session (set_sessionData (a_params args)) ;;;
      assign session (set_updatedAt now) ;;;
      assign session (set_lastActivity now) ;;;
      (match a_accounts args with
       | account :: _ =>
           assign session (set_address (split_colon account !! 2%nat))
       | [] => ret tt
       end) ;;;
      let* s := deref session in
      clearTimer ("connection-" +:+ userId s) ;;;
      effect (Emit "session_connect" (Some (userId s)))
  | None => ret tt
  end.

Definition on_session_event (args : EventArgs) : M unit :=
  let* found := findSessionByTopic (a_topic args) in
  match found with
  | Some session =>
      let* s := deref session in
      effect (Emit "session_event" (Some (userId s)))
  | None => ret tt
  end.

Definition on_session_update (args : EventArgs) : M unit :=
  let* found := findSessionByTopic (a_topic args) in
  match found with
  | Some session =>
      let* now := Date_now in
      assign session (set_sessionData (a_params args)) ;;;
      assign session (set_updatedAt now) ;;;
      assign session (set_lastActivity now) ;;;
      let* s := deref session in
      effect (Emit "session_update" (Some (userId s)))
  | None => ret tt
  end.

Definition on_session_delete (args : EventArgs) : M unit :=
  let* found := findSessionByTopic (a_topic args) in
  match found with
  | Some session =>
      let* s := deref session in
      effect (Emit "session_disconnect" (Some (userId s)))
  | None => ret tt
  end.

Definition createWalletConnectClient (_userId : string) : M ClientId :=
  try_catch
    (if bool_decide (projectId env = "") then
       throw (Error "Project ID is required for WalletConnect client initialization")
     else
       let* client := gets nextClient in
       let* n := tick in
       effect (SignClientInit client) ;;;
       await (SignClient_init env n client) ;;;
       modify (with_nextClient (S client)) ;;;
       ret client)
    (fun _ =>
       throw (WalletConnectSDKError "Failed to create WalletConnect client"
                                    "UNKNOWN_ERROR")).

(** [!uri || typeof uri !== 'string' || uri.trim() === ''] *)
Definition invalid_uri (uri : option string) : bool :=
  match uri with
  | Some u => blank u
  | None => true
  end.

Definition generateQRCode (uri : option string) : M string :=
  try_catch
    (match uri with
     | Some u =>
         if blank u then throw (Error "Invalid URI provided for QR code generation")
         else
           effect (QrEncode u) ;;;
           let* qrCode := await (qrcode_toDataURL env u) in
           match qrCode with
           | Some q =>
               if bool_decide (q = "") then
                 throw (Error "QR code generation returned invalid result")
               else ret q
           | None => throw (Error "QR code generation returned invalid result")
           end
     | None => throw (Error "Invalid URI provided for QR code generation")
     end)
    (fun _ =>
       throw (WalletConnectSDKError "Failed to generate QR code" "UNKNOWN_ERROR")).

Definition default_methods : list string :=
  ["eth_sendTransaction"; "eth_signTransaction"; "eth_sign";
   "personal_sign"; "eth_signTypedData"].

Definition connect (request : ConnectionRequest) : M ConnectionResponse :=
  try_catch
    (let* existingSession :=
       gets (fun w => JsMap.get (cr_userId request) (userSessions w)) in
     let* valid :=
       match existingSession with
       | Some r => validateSession r
       | None => ret false
       end in
     match existingSession, valid with
     | Some r, true =>
         let* s := deref r in
         let* timeout := getTimeout connection in
         ret (mkConnectionResponse true (Some "") None
                (Some (or_default (topic s) "")) None None
                (Some timeout) (Some timeout))
     | _, _ =>
         let* wcClient := createWalletConnectClient (cr_userId request) in
         let methods := default default_methods (cr_methods request) in
         let chains :=
           match cr_chainId request with
           | Some c => if c =? 0 then ["eip155:1"] else ["eip155:" +:+ pretty c]
           | None => ["eip155:1"]
           end in
         let events :=
           default ["chainChanged"; "accountsChanged"] (cr_events request) in
         let* n := tick in
         effect (Handshake wcClient methods chains events) ;;;
         let* uri := await (client_connect env n wcClient methods chains events) in
         if invalid_uri uri then
           throw (WalletConnectSDKError
                    "Invalid connection URI received from WalletConnect"
                    "UNKNOWN_ERROR")
         else
           let* qrCode := generateQRCode uri in
           let deepLinks := generateDeepLinks env (default "" uri) in
           let* now := Date_now in
           let* session :=
             alloc (mkSession (cr_userId request) wcClient None None None
                              false now now now) in
           modify (fun w =>
             with_userSessions
               (JsMap.set (cr_userId request) session (userSessions w)) w) ;;;
           db_saveSession session ;;;
           effect (Emit "session_connect" (Some (cr_userId request))) ;;;
           let* timeout := getTimeout connection in
           ret (mkConnectionResponse true uri (Some qrCode) uri None
                  (Some deepLinks) (Some timeout) (Some timeout))
     end)
    (fun error =>
       effect (Emit "error" (Some (cr_userId request))) ;;;
       ret (mkConnectionResponse false None None None
              (Some (error_message error)) None None None)).

Definition disconnect (user : string) : M bool :=
  try_catch
    (let* found := gets (fun w => JsMap.get user (userSessions w)) in
     match found with
     | None => ret false
     | Some session =>
         let* s := deref session in
         (if truthy (topic s) then
            let* n := tick in
            effect (RemoteDisconnect (wcClient s) (default "" (topic s))
                                     6000 "User disconnected") ;;;
            await (client_disconnect env n (wcClient s) (default "" (topic s)))
          else ret tt) ;;;
         modify (fun w =>
           with_userSessions (JsMap.delete user (userSessions w)) w) ;;;
         db_deleteSession user ;;;
         effect (Emit "session_disconnect" (Some user)) ;;;
         ret true
     end)
    (fun _ => ret false).

(** [cleanupSessions] *)
Fixpoint collect_expired (entries : list (string * Ref)) : M (list string) :=
  match entries with
  | [] => ret []
  | (user, session) :: rest =>
      let* valid := validateSession session in
      let* more := collect_expired rest in
      ret (if valid then more else user :: more)
  end.

Definition cleanupSessions : M unit :=
  try_catch
    (let* entries := gets userSessions in
     let* expiredSessions := collect_expired entries in
     for_each expiredSessions (fun user => disconnect user ;;; ret tt))
    (fun _ => ret tt).

(** [destroy]: a [disconnect] removes at most the entry under the cursor
    of the iteration, so the loop visits the keys present at its start. *)
Definition destroy : M unit :=
  try_catch
    (let* interval := gets cleanupInterval in
     (match interval with
      | Some _ => effect ClearInterval
      | None => ret tt
      end) ;;;
     let* users := gets (fun w => JsMap.keys (userSessions w)) in
     for_each users (fun user => disconnect user ;;; ret tt) ;;;
     db_disconnect ;;;
     modify (with_isInitialized false))
    (fun _ => ret tt).

Definition restoreSessions : M unit :=
  try_catch
    (let* sessions := db_getAllSessions in
     for_each sessions (fun session =>
       let* valid := validateSession session in
       if valid then
         let* s := deref session in
         let* wcClient := createWalletConnectClient (userId s) in
         assign session (set_wcClient wcClient) ;;;
         assign session (set_isActive true) ;;;
         modify (fun w =>
           with_userSessions (JsMap.set (userId s) session (userSessions w)) w)
       else ret tt))
    (fun _ => ret tt).

Definition init : M unit :=
  let* initialized := gets isInitialized in
  if initialized then ret tt
  else
    try_catch
      (db_connect ;;;
       restoreSessions ;;;
       modify (with_isInitialized true) ;;;
       effect (Emit "info" None))
      (fun _ =>
         throw (WalletConnectSDKError "Failed to initialize SDK" "UNKNOWN_ERROR")).

Definition getAccounts (user : string) : M Json :=
  try_catch
    (let* session := getSession user in
     match session with
     | Some r =>
         let* s := deref r in
         if truthy (topic s) then
           let* n := tick in
           effect (RpcRequest (wcClient s) (default "" (topic s)) "eip155:1"
                              "eth_accounts" (JList [])) ;;;
           await (client_request env n (wcClient s) (default "" (topic s))
                                 "eip155:1" "eth_accounts" (JList []))
         else ret (JList [])
     | None => ret (JList [])
     end)
    (fun _ => ret (JList [])).

(** *** The operation facade *)

(** The guard that opens every operation:
    [const session = await this.getSession(userId);
     if (!session || !session.topic) throw new WalletConnectSDKError(...)] *)
Definition connected_session (user : string) : M UserSession :=
  let* session := getSession user in
  match session with
  | Some r =>
      let* s := deref r in
      if truthy (topic s) then ret s
      else throw (WalletConnectSDKError "User not connected" "SESSION_NOT_FOUND")
  | None => throw (WalletConnectSDKError "User not connected" "SESSION_NOT_FOUND")
  end.

(** [session.wcClient.request({topic, chainId, request: {method, params}})]:
    the request leaves at once, the promise is its reply. *)
Definition wc_request (s : UserSession) (chainId method : string)
           (params : Json) : M (Reply Json) :=
  let* n := tick in
  effect (RpcRequest (wcClient s) (default "" (topic s)) chainId method params) ;;;
  ret (client_request env n (wcClient s) (default "" (topic s))
                      chainId method params).

Definition failure (error : Thrown) : OperationResponse :=
  mkResponse false None (Some (error_message error)).

Definition sendTransaction (request : TransactionRequest)
  : M OperationResponse :=
  try_catch
    (let* session := connected_session (tx_userId request) in
     let transaction :=
       JObj [("to", JStr (tx_to request));
             ("data", opt JStr (tx_data request));
             ("value", opt JNum (tx_value request));
             ("gas", opt JNum (tx_gas request));
             ("maxFeePerGas", opt JNum (tx_maxFeePerGas request));
             ("maxPriorityFeePerGas", opt JNum (tx_maxPriorityFeePerGas request));
             ("nonce", opt JNum (tx_nonce request))] in
     let* promise :=
       wc_request session ("eip155:" +:+ pretty (or_one (tx_chainId request)))
                  "eth_sendTransaction" (JList [transaction]) in
     let* result := await promise in
     effect (Emit "transaction_response" (Some (tx_userId request))) ;;;
     ret (mkResponse true (Some (hash result)) None))
    (fun error =>
       effect (Emit "transaction_response" (Some (tx_userId request))) ;;;
       ret (failure error)).

Definition signMessage (request : SignMessageRequest) : M OperationResponse :=
  try_catch
    (let* session := connected_session (sm_userId request) in
     let signer :=
       if truthy (sm_address request) then sm_address request
       else address session in
     let* promise :=
       wc_request session "eip155:1" "personal_sign"
                  (JList [JStr (sm_message request); opt JStr signer]) in
     let* result := await promise in
     effect (Emit "sign_response" (Some (sm_userId request))) ;;;
     ret (mkResponse true (Some (signature result)) None))
    (fun error =>
       effect (Emit "sign_response" (Some (sm_userId request))) ;;;
       ret (failure error)).

Definition signTypedData (request : SignTypedDataRequest)
  : M OperationResponse :=
  try_catch
    (let* session := connected_session (st_userId request) in
     let signer :=
       if truthy (st_address request) then st_address request
       else address session in
     let* promise :=
       wc_request session "eip155:1" "eth_signTypedData"
                  (JList [opt JStr signer;
                          JStr (JSON_stringify env (st_value request))]) in
     let* result := await promise in
     effect (Emit "sign_response" (Some (st_userId request))) ;;;
     ret (mkResponse true (Some (signature result)) None))
    (fun error =>
       effect (Emit "sign_response" (Some (st_userId request))) ;;;
       ret (failure error)).

Definition callContract (request : ContractCallRequest)
  : M OperationResponse :=
  try_catch
    (let* session := connected_session (cc_userId request) in
     let contract := cc_contract request in
     let* encodedData :=
       call (encodeFunctionData env (k_abi contract) (cc_functionName request)
                                (default [] (cc_args request))) in
     let transaction :=
       JObj [("to", JStr (k_address contract));
             ("data", JStr encodedData);
             ("value", JNum (default 0 (cc_value request)));
             ("gas", opt JNum (cc_gas request));
             ("maxFeePerGas", opt JNum (cc_maxFeePerGas request));
             ("maxPriorityFeePerGas", opt JNum (cc_maxPriorityFeePerGas request));
             ("nonce", opt JNum (cc_nonce request))] in
     let* promise :=
       wc_request session ("eip155:" +:+ pretty (or_one (k_chainId contract)))
                  "eth_sendTransaction" (JList [transaction]) in
     let* result := await promise in
     effect (Emit "transaction_response" (Some (cc_userId request))) ;;;
     ret (mkResponse true (Some (hash result)) None))
    (fun error =>
       effect (Emit "transaction_response" (Some (cc_userId request))) ;;;
       ret (failure error)).

Definition readContract (request : ContractReadRequest)
  : M OperationResponse :=
  try_catch
    (let* session := connected_session (rd_userId request) in
     let contract := rd_contract request in
     let* encodedData :=
       call (encodeFunctionData env (k_abi contract) (rd_functionName request)
                                (default [] (rd_args request))) in
     let block :=
       match rd_blockNumber request with
       | Some b => if b =? 0 then "latest" else "0x" +:+ toString16 b
       | None => "latest"
       end in
     let* promise :=
       wc_request session ("eip155:" +:+ pretty (or_one (k_chainId contract)))
                  "eth_call"
                  (JList [JObj [("to", JStr (k_address contract));
                                ("data", JStr encodedData)];
                          JStr block]) in
     let* result := await promise in
     let* decodedData := call (decodeFunctionData env (k_abi contract) result) in
     ret (mkResponse true (Some (data decodedData)) None))
    (fun error => ret (failure error)).

Definition estimateGas (request : ContractCallRequest) : M OperationResponse :=
  try_catch
    (let* session := connected_session (cc_userId request) in
     let contract := cc_contract request in
     let* encodedData :=
       call (encodeFunctionData env (k_abi contract) (cc_functionName request)
                                (default [] (cc_args request))) in
     let* promise :=
       wc_request session ("eip155:" +:+ pretty (or_one (k_chainId contract)))
                  "eth_estimateGas"
                  (JList [JObj [("to", JStr (k_address contract));
                                ("data", JStr encodedData);
                                ("value", JNum (default 0 (cc_value request)))]]) in
     let* result :=
       waitForGasEstimation ("gas-estimation-" +:+ cc_userId request) promise in
     let* g := call (BigInt env result) in
     ret (mkResponse true (Some (gas g)) None))
    (fun error =>
       match error with
       | TimeoutError _ _ timeout =>
           ret (mkResponse false None
                  (Some ("Gas estimation timed out after "
                         +:+ formatTimeout timeout)))
       | _ => ret (failure error)
       end).

(** The six operations that go through a session. *)
Inductive Operation :=
  | SendTransaction (request : TransactionRequest)
  | SignMessage (request : SignMessageRequest)
  | SignTypedData (request : SignTypedDataRequest)
  | CallContract (request : ContractCallRequest)
  | ReadContract (request : ContractReadRequest)
  | EstimateGas (request : ContractCallRequest).

Definition operation_user (op : Operation) : string :=
  match op with
  | SendTransaction r => tx_userId r
  | SignMessage r => sm_userId r
  | SignTypedData r => st_userId r
  | CallContract r => cc_userId r
  | ReadContract r => rd_userId r
  | EstimateGas r => cc_userId r
  end.

Definition perform (op : Operation) : M OperationResponse :=
  match op with
  | SendTransaction r => sendTransaction r
  | SignMessage r => signMessage r
  | SignTypedData r => signTypedData r
  | CallContract r => callContract r
  | ReadContract r => readContract r
  | EstimateGas r => estimateGas r
  end.

(** ** Reachable states *)

(** What can happen to an SDK instance: a call of its public interface,
    an event delivered by one of its protocol clients, or time passing. *)
Inductive Call :=
  | call_init
  | call_connect (request : ConnectionRequest)
  | call_disconnect (user : string)
  | call_isConnected (user : string)
  | call_getSession (user : string)
  | call_getAllSessions
  | call_getAccounts (user : string)
  | call_perform (op : Operation)
  | call_validateSession (session : Ref)
  | call_cleanupSessions
  | call_destroy
  | call_updateTimeoutConfig (newTimeouts : PartialTimeouts)
  | call_clearTimer (operation : string)
  | call_clearAllTimers
  | event_session_connect (client : ClientId) (args : EventArgs)
  | event_session_event (args : EventArgs)
  | event_session_update (args : EventArgs)
  | event_session_delete (args : EventArgs)
  | elapse (ms : Z).

Definition quiet {A} (m : M A) : M unit := m ;;; ret tt.

Definition run (c : Call) : M unit :=
  match c with
  | call_init => init
  | call_connect request => quiet (connect request)
  | call_disconnect user => quiet (disconnect user)
  | call_isConnected user => quiet (isConnected user)
  | call_getSession user => quiet (getSession user)
  | call_getAllSessions => quiet getAllSessions
  | call_getAccounts user => quiet (getAccounts user)
  | call_perform op => quiet (perform op)
  | call_validateSession session => quiet (validateSession session)
  | call_cleanupSessions => cleanupSessions
  | call_destroy => destroy
  | call_updateTimeoutConfig newTimeouts => updateTimeouts newTimeouts
  | call_clearTimer operation => clearTimer operation
  | call_clearAllTimers => clearAllTimers
  | event_session_connect client args => on_session_connect client args
  | event_session_event args => on_session_event args
  | event_session_update args => on_session_update args
  | event_session_delete args => on_session_delete args
  | elapse ms => modify (fun w => with_clock (clock w + ms) w)
  end.

Definition step (c : Call) (w : World) : World := snd (run c w).

(** The states an instance goes through when every call it receives is
    [admissible]. *)
Inductive reachable (admissible : Call -> Prop) : World -> Prop :=
  | reachable_new customTimeouts interval now :
      reachable admissible (new_World customTimeouts interval now)
  | reachable_step w c :
      reachable admissible w -> admissible c ->
      reachable admissible (step c w).

Definition any_call : Call -> Prop := fun _ => True.

(** Approval events that carry a non-empty topic. *)
Definition approvals_carry_topic : Call -> Prop :=
  fun c =>
    match c with
    | event_session_connect _ args => truthy (a_topic args) = true
    | _ => True
    end.
End SDK.

(** ** [class SQLiteDatabase] *)

Module SQLiteDatabase.

(** A row of [user_sessions].  The three date columns hold
    [toISOString()] texts, which SQLite compares as text; for the years 0
    to 9999 that order is the order of the instants, so a column is kept
    here as the instant it denotes. *)
Record Row := mkRow {
  r_userId : string;
  r_topic : option string;
  r_address : option string;
  r_sessionData : option string;
  r_isActive : bool;
  r_createdAt : Z;
  r_updatedAt : Z;
  r_lastActivity : Z
}.

Record t := mkDb {
  db : option (list Row);      (* [null] until [connect()] *)
  isConnectedFlag : bool
}.


End SQLiteDatabase.

(** ** [class MemoryStorage] ([src/storage/MemoryStorage.ts]) *)

Module MemoryStorage.

Record Item := mkItem {
  value : Json;
  i_createdAt : Z;
  i_updatedAt : Z;
  expiresAt : option Z
}.

Record Stats := mkStats {
  totalItems : Z;
  totalSize : Z;
  expiredItems : Z;
  lastCleanup : Z
}.

Record t := mkStorage {
  storage : JsMap.t Item;
  stats : Stats
}.

Section methods.
(** [JSON.stringify(item).length] *)
Context (getItemSize : Item -> Z).

Definition removeItem (key : string) (this : t) : t :=
  let st := stats this in
  let st' :=
    match JsMap.get key (storage this) with
    | Some item =>
        mkStats (totalItems st - 1) (totalSize st - getItemSize item)
                (expiredItems st) (lastCleanup st)
    | None => st
    end in
  mkStorage (JsMap.delete key (storage this)) st'.

(** The loop of [cleanup]: the entries still to visit, the storage and the
    count so far. *)
Fixpoint cleanup_loop (now : Z) (entries : list (string * Item))
         (this : t) (removedCount : Z) : t * Z :=
  match entries with
  | [] => (this, removedCount)
  | (key, item) :: rest =>
      match expiresAt item with
      | Some e =>
          if e <? now then
            cleanup_loop now rest (removeItem key this) (removedCount + 1)
          else cleanup_loop now rest this removedCount
      | None => cleanup_loop now rest this removedCount
      end
  end.

Definition cleanup (now : Z) (this : t) : Z * t :=
  let '(this', removedCount) := cleanup_loop now (storage this) this 0 in
  let st := stats this' in
  (removedCount,
   mkStorage (storage this')
             (mkStats (totalItems st) (totalSize st)
                      (expiredItems st + removedCount) now)).
End methods.

End MemoryStorage.

(** ** [createProgressTracker] *)

(** JavaScript numbers are IEEE-754 binary64 values. *)
Definition prec : Z := 53.
Definition emax : Z := 1024.

(** The double nearest to an integer. *)
Definition Number (z : Z) : spec_float := binary_normalize prec emax z 0 false.









(** ** Specification vocabulary *)

(** The validity rule of [validateSession], as a function of the time. *)
Definition valid_at (now : Z) (s : UserSession) : bool :=
  isActive s && truthy (topic s) && negb (maxAge <? now - lastActivity s).

(** The session registered for [user], if the registry has one. *)
Definition session_of (w : World) (user : string) : option UserSession :=
  r ← JsMap.get user (userSessions w); heap w !! r.

(** The record stored for [user], if the store has one. *)
Definition stored_of (w : World) (user : string) : option UserSession :=
  r ← JsMap.get user (db_sessions w); heap w !! r.

(** [user] has a currently valid active session. *)
Definition connected (w : World) (user : string) : bool :=
  match session_of w user with
  | Some s => valid_at (clock w) s
  | None => false
  end.

(** An active session has a non-empty topic. *)
Definition active_has_topic (s : UserSession) : Prop :=
  isActive s = true -> truthy (topic s) = true.

(** Every registry and store entry refers to a session object, and no key
    occurs twice. *)
Record well_formed (w : World) : Prop := mk_well_formed {
  wf_registry : Forall (fun r => (r < length (heap w))%nat)
                       (JsMap.values (userSessions w));
  wf_store : Forall (fun r => (r < length (heap w))%nat)
                    (JsMap.values (db_sessions w));
  wf_registry_keys : NoDup (JsMap.keys (userSessions w));
  wf_store_keys : NoDup (JsMap.keys (db_sessions w))
}.

(** Hoare triples over [M]: from a state in [P], a run that resolves with
    [a] ends in [Q a]; a run that rejects or never settles is left in [X]. *)
Definition triple {A} (X P : World -> Prop) (m : M A) (Q : A -> World -> Prop)
  : Prop :=
  forall w, P w ->
    match m w with
    | (Resolved a, w') => Q a w'
    | (_, w') => X w'
    end.



(** The invariant of the registry, for a property [g] that every session
    object is to satisfy. *)
Definition invariant (g : UserSession -> Prop) (w : World) : Prop :=
  well_formed w /\ Forall g (heap w).

(** Properties of session objects that the updates of the SDK keep, with
    the approval events [ok] under which the approval handler keeps them. *)
Record session_property (g : UserSession -> Prop) (ok : EventArgs -> Prop)
  : Prop := mk_session_property {
  sp_new : forall user client now,
    g (mkSession user client None None None false now now now);
  sp_inactive : forall s, g s -> g (set_isActive false s);
  sp_active : forall s, g s -> truthy (topic s) = true -> g (set_isActive true s);
  sp_wcClient : forall c s, g s -> g (set_wcClient c s);
  sp_address : forall a s, g s -> g (set_address a s);
  sp_sessionData : forall d s, g s -> g (set_sessionData d s);
  sp_updatedAt : forall z s, g s -> g (set_updatedAt z s);
  sp_lastActivity : forall z s, g s -> g (set_lastActivity z s);
  sp_topic : forall args s, ok args -> g s -> g (set_topic (a_topic args) s);
  sp_approved : forall args s,
    ok args -> g s -> g (set_isActive true (set_topic (a_topic args) s))
}.

(** What the invariants speak about. *)
Definition session_state (w : World)
  : list UserSession * JsMap.t Ref * JsMap.t Ref :=
  (heap w, userSessions w, db_sessions w).

(** [m] keeps [I], however it ends. *)
Definition preserves {A} (I : World -> Prop) (m : M A) : Prop :=
  triple I I m (fun _ => I).

(** [m] leaves the component [pi] of the state as it is. *)
Definition keeps {A T} (pi : World -> T) (m : M A) : Prop :=
  forall v, preserves (fun w => pi w = v) m.

(** ** Sample collaborators and states *)

(** A wallet that approves everything: every call settles successfully. *)
Definition obliging_env : Env :=
  mkEnv "demo-project"
    (fun _ _ => Settles 5 (inl tt))
    (fun _ client _ _ _ => Settles 10 (inl (Some ("wc:" +:+ pretty client))))
    (fun _ _ _ _ _ _ => Settles 3 (inl (JStr "0xfeed")))
    (fun _ _ _ => Settles 1 (inl tt))
    (fun _ => Settles 1 (inl (Some "data:image/png;base64,AAAA")))
    (fun _ _ _ => inl "0xa9059cbb")
    (fun _ _ => inl (JList []))
    (fun _ => "{}")
    (fun _ => inl 21000)
    (fun _ => [])
    false.


Definition u1_request : ConnectionRequest :=
  mkConnectionRequest "u1" None None None.

(** A fresh instance, created at time 1000. *)
Definition fresh_world : World := new_World no_overrides None 1000.

(** [connect({userId: "u1"})] on a fresh instance: "u1" is pending. *)
Definition pending_world (env : Env) : World :=
  step env (call_connect u1_request) fresh_world.

(** ... and the wallet has approved with topic "t1". *)
Definition approved_world (env : Env) : World :=
  step env
    (event_session_connect 0%nat
       (mkEventArgs (Some "t1") None ["eip155:1:0xabc"]))
    (pending_world env).

(** The session of "u1" once approved. *)
Definition approved_session : UserSession :=
  mkSession "u1" 0%nat (Some "t1") (Some "0xabc") None true 1016 1016 1016.

(** More than 24 hours after the approval. *)
Definition stale_world (env : Env) : World :=
  step env (elapse (maxAge + 1)) (approved_world env).

(** A session object that is flagged active but never received a topic,
    last used at time 0, looked at just after 24 hours. *)
Definition topicless_session : UserSession :=
  mkSession "u1" 0%nat None None None true 0 0 0.

Definition topicless_world : World :=
  with_heap [topicless_session] (new_World no_overrides None (maxAge + 1)).

(** The wallet approves, but the event carries no topic. *)
Definition approved_without_topic_world (env : Env) : World :=
  step env (event_session_connect 0%nat (mkEventArgs None None []))
       (pending_world env).

Definition u1_transfer : Operation :=
  SendTransaction
    (mkTransactionRequest "u1" "0x00000000000000000000000000000000000000aa"
                          None (Some 1) None None None None None).

(** "u1" is connected and sends a transfer five seconds later. *)
Definition busy_world (env : Env) : World :=
  step env (elapse 5000) (approved_world env).

(** The effects of a [disconnect]. *)
Definition is_session_teardown (e : Effect) : bool :=
  match e with
  | RemoteDisconnect _ _ _ _ => true
  | Emit type _ => bool_decide (type = "session_disconnect")
  | _ => false
  end.

(** A relay that completes every protocol-level disconnect. *)
Definition relay_always_disconnects (env : Env) : Prop :=
  forall n client topic, exists d,
    client_disconnect env n client topic = Settles d (inl tt).






(** The scenario of the sweep: three sessions last used 1 ms, 25 hours and
    30 hours before [now]. *)
Definition sweep_now : Z := 200000000.







Definition three_items_store : MemoryStorage.t :=
  MemoryStorage.mkStorage
    [("k1", MemoryStorage.mkItem (JStr "v1") 0 0 (Some (sweep_now + 1)));
     ("k2", MemoryStorage.mkItem (JStr "v2") 0 0 (Some (sweep_now - 1)));
     ("k3", MemoryStorage.mkItem (JStr "v3") 0 0 None)]
    (MemoryStorage.mkStats 3 0 0 0).

(** ** Vocabulary for doubles *)






(** ** Vocabulary for the further properties *)

(** [isTimedOut(operation)] is [this.timers.has(operation)]: it tells
    whether a timer is tracked for the key. *)
Definition isTimedOut (operation : string) : M bool :=
  gets (fun w => JsMap.has operation (timers w)).



(** Whether the session object [r] is valid in [w]. *)
Definition is_valid (w : World) (r : Ref) : bool :=
  match heap w !! r with
  | Some s => valid_at (clock w) s
  | None => false
  end.

(** [w'] is [w] in which some sessions that are not valid have been
    flagged inactive, and nothing else has changed. *)
Definition only_deactivated (w w' : World) : Prop :=
  userSessions w' = userSessions w /\
  db_sessions w' = db_sessions w /\
  clock w' = clock w /\
  trace w' = trace w /\
  timers w' = timers w /\
  forall r,
    heap w' !! r = heap w !! r \/
    exists s, heap w !! r = Some s /\ valid_at (clock w) s = false /\
              heap w' !! r = Some (set_isActive false s).

(** The registry and the store hold the same entries, every entry is
    filed under the [userId] of its session, and no two registered
    sessions share a protocol client, which is one that [SignClient.init]
    has made. *)
Definition consistent (w : World) : Prop :=
  db_sessions w = userSessions w /\
  NoDup (JsMap.keys (userSessions w)) /\
  (forall user r,
     In (user, r) (userSessions w) ->
     exists s, heap w !! r = Some s /\ userId s = user /\
               (wcClient s < nextClient w)%nat) /\
  (forall user1 r1 s1 user2 r2 s2,
     In (user1, r1) (userSessions w) -> In (user2, r2) (userSessions w) ->
     heap w !! r1 = Some s1 -> heap w !! r2 = Some s2 ->
     wcClient s1 = wcClient s2 -> user1 = user2).

(** The client [c] has been made, and no registered session uses it. *)
Definition unused_client (c : ClientId) (w : World) : Prop :=
  (c < nextClient w)%nat /\
  forall user r s,
    In (user, r) (userSessions w) -> heap w !! r = Some s ->
    (wcClient s < c)%nat.

(** The session [s] after the approval [args] at time [now]. *)
Definition approve (args : EventArgs) (now : Z) (s : UserSession)
  : UserSession :=
  mkSession (userId s) (wcClient s) (a_topic args)
            (match a_accounts args with
             | account :: _ => split_colon account !! 2%nat
             | [] => address s
             end)
            (a_params args) true (createdAt s) now now.

(** ** [class MemoryStorage]: access by key *)

(** The handlers registered with [on] are taken not to call back into the
    storage; [ttl] is a whole number of seconds, and the times are within
    the range of [Date]. *)
Module MemoryStorageAccess.

(** The storage with the counters [hitRate] and [missRate] of [stats],
    which [updateStats] maintains. *)
Record t := mkAccess {
  store : MemoryStorage.t;
  hitRate : Z;
  missRate : Z
}.

Inductive Lookup := hit | miss.

Definition updateStats (type : Lookup) (this : t) : t :=
  match type with
  | hit => mkAccess (store this) (hitRate this + 1) (missRate this)
  | miss => mkAccess (store this) (hitRate this) (missRate this + 1)
  end.

(** [item.expiresAt && new Date() > item.expiresAt] *)
Definition expired (now : Z) (item : MemoryStorage.Item) : bool :=
  match MemoryStorage.expiresAt item with
  | Some e => e <? now
  | None => false
  end.

Section methods.
Context (getItemSize : MemoryStorage.Item -> Z).

(** [getItem] resolves with [undefined] ([None]) or with [item.value]. *)
Definition getItem (now : Z) (key : string) (this : t) : option Json * t :=
  match JsMap.get key (MemoryStorage.storage (store this)) with
  | None => (None, updateStats miss this)
  | Some item =>
      if expired now item then
        (None,
         updateStats miss
           (mkAccess (MemoryStorage.removeItem getItemSize key (store this))
                     (hitRate this) (missRate this)))
      else (Some (MemoryStorage.value item), updateStats hit this)
  end.

(** [ttl ? new Date(Date.now() + ttl * 1000) : undefined]: no [ttl] and a
    [ttl] of 0 both mean that the item does not expire. *)
Definition expiry (now : Z) (ttl : option Z) : option Z :=
  match ttl with
  | Some seconds => if seconds =? 0 then None else Some (now + seconds * 1000)
  | None => None
  end.

Definition setItem (now : Z) (key : string) (value : Json) (ttl : option Z)
           (this : MemoryStorage.t) : MemoryStorage.t :=
  let item := MemoryStorage.mkItem value now now (expiry now ttl) in
  let st := MemoryStorage.stats this in
  let totalSize :=
    match JsMap.get key (MemoryStorage.storage this) with
    | Some oldItem => MemoryStorage.totalSize st - getItemSize oldItem
    | None => MemoryStorage.totalSize st
    end in
  let storage := JsMap.set key item (MemoryStorage.storage this) in
  MemoryStorage.mkStorage storage
    (MemoryStorage.mkStats (Z.of_nat (JsMap.size storage))
                           (totalSize + getItemSize item)
                           (MemoryStorage.expiredItems st)
                           (MemoryStorage.lastCleanup st)).

Definition clear (this : MemoryStorage.t) : MemoryStorage.t :=
  let st := MemoryStorage.stats this in
  MemoryStorage.mkStorage JsMap.empty
    (MemoryStorage.mkStats 0 0 (MemoryStorage.expiredItems st)
                           (MemoryStorage.lastCleanup st)).

Definition getKeys (this : MemoryStorage.t) : list string :=
  JsMap.keys (MemoryStorage.storage this).

(** The loop of [getEntries], which pushes the entries that have not
    expired. *)
Fixpoint getEntries_loop (now : Z) (todo : list (string * MemoryStorage.Item))
         (entries : list (string * Json)) : list (string * Json) :=
  match todo with
  | [] => entries
  | (key, item) :: rest =>
      getEntries_loop now rest
        (if expired now item then entries
         else entries ++ [(key, MemoryStorage.value item)])
  end.

Definition getEntries (now : Z) (this : MemoryStorage.t)
  : list (string * Json) :=
  getEntries_loop now (MemoryStorage.storage this) [].

Definition hasKey (now : Z) (key : string) (this : MemoryStorage.t)
  : bool * MemoryStorage.t :=
  match JsMap.get key (MemoryStorage.storage this) with
  | None => (false, this)
  | Some item =>
      if expired now item
      then (false, MemoryStorage.removeItem getItemSize key this)
      else (true, this)
  end.
End methods.

(** [new MemoryStorage()], [lastCleanup] being the time of creation. *)
Definition new (now : Z) : t :=
  mkAccess (MemoryStorage.mkStorage JsMap.empty (MemoryStorage.mkStats 0 0 0 now))
           0 0.

End MemoryStorageAccess.

(** The sum of the sizes of the stored items. *)
Definition size_of_items (getItemSize : MemoryStorage.Item -> Z)
           (m : JsMap.t MemoryStorage.Item) : Z :=
  fold_right (fun kv total => getItemSize (snd kv) + total) 0 m.

(** [stats.totalItems] and [stats.totalSize] account for the stored
    items. *)
Definition accounted (getItemSize : MemoryStorage.Item -> Z)
           (this : MemoryStorage.t) : Prop :=
  NoDup (JsMap.keys (MemoryStorage.storage this)) /\
  MemoryStorage.totalItems (MemoryStorage.stats this) =
    Z.of_nat (JsMap.size (MemoryStorage.storage this)) /\
  MemoryStorage.totalSize (MemoryStorage.stats this) =
    size_of_items getItemSize (MemoryStorage.storage this).


(** An ABI encoder that rejects every call. *)
Definition failing_encoder_env : Env :=
  mkEnv "demo-project"
    (SignClient_init obliging_env)
    (client_connect obliging_env)
    (client_request obliging_env)
    (client_disconnect obliging_env)
    (qrcode_toDataURL obliging_env)
    (fun _ _ _ => inr (Error "unknown function"))
    (decodeFunctionData obliging_env)
    (JSON_stringify obliging_env)
    (BigInt obliging_env)
    (generateDeepLinks obliging_env)
    false.

(** * Properties *)

(** ** [JsMap] *)

Section JsMap_facts.
Context {V : Type}.
Implicit Types (m : JsMap.t V) (k : string) (v : V).

Lemma get_set_eq m k v : JsMap.get k (JsMap.set k v m) = Some v.
Proof.
  induction m as [|[k' v'] m IH]; simpl.
  - destruct (decide (k = k)); congruence.
  - destruct (decide (k = k')) as [->|Hne]; simpl.
    + destruct (decide (k' = k')); congruence.
    + destruct (decide (k = k')); congruence.
Qed.

Lemma get_set_ne m k k' v :
  k' <> k -> JsMap.get k' (JsMap.set k v m) = JsMap.get k' m.
Proof.
  intros Hne. induction m as [|[k0 v0] m IH]; simpl.
  - destruct (decide (k' = k)); congruence.
  - destruct (decide (k = k0)) as [->|Hk]; simpl.
    + destruct (decide (k' = k0)); congruence.
    + destruct (decide (k' = k0)); congruence.
Qed.

Lemma get_delete_eq m k : JsMap.get k (JsMap.delete k m) = None.
Proof.
  induction m as [|[k' v'] m IH]; simpl; [done|].
  destruct (decide (k = k')) as [->|Hne]; simpl; [done|].
  destruct (decide (k = k')); congruence.
Qed.

Lemma get_delete_ne m k k' :
  k' <> k -> JsMap.get k' (JsMap.delete k m) = JsMap.get k' m.
Proof.
  intros Hne. induction m as [|[k0 v0] m IH]; simpl; [done|].
  destruct (decide (k = k0)) as [->|Hk]; simpl.
  - destruct (decide (k' = k0)); congruence.
  - destruct (decide (k' = k0)); congruence.
Qed.

Lemma get_Some_values m k v : JsMap.get k m = Some v -> In v (JsMap.values m).
Proof.
  induction m as [|[k' v'] m IH]; simpl; [done|].
  destruct (decide (k = k')); [intros [= ->]; auto | auto].
Qed.

Lemma get_None_keys m k : JsMap.get k m = None <-> ~ In k (JsMap.keys m).
Proof.
  induction m as [|[k' v'] m IH]; simpl; [tauto|].
  destruct (decide (k = k')) as [->|Hne].
  - split; [done | intros H; exfalso; apply H; auto].
  - rewrite IH. split; [intros H [?|?]; [congruence | tauto] | tauto].
Qed.

Lemma values_set m k v x :
  In x (JsMap.values (JsMap.set k v m)) -> x = v \/ In x (JsMap.values m).
Proof.
  induction m as [|[k' v'] m IH]; simpl; [intuition congruence|].
  destruct (decide (k = k')); simpl; intuition congruence.
Qed.

Lemma values_delete m k x :
  In x (JsMap.values (JsMap.delete k m)) -> In x (JsMap.values m).
Proof.
  induction m as [|[k' v'] m IH]; simpl; [tauto|].
  destruct (decide (k = k')); simpl; tauto.
Qed.

Lemma keys_set m k v x :
  In x (JsMap.keys (JsMap.set k v m)) <-> x = k \/ In x (JsMap.keys m).
Proof.
  induction m as [|[k' v'] m IH]; simpl; [intuition congruence|].
  destruct (decide (k = k')) as [->|Hne]; simpl; [intuition congruence|].
  rewrite IH. intuition congruence.
Qed.

Lemma keys_delete m k x :
  In x (JsMap.keys (JsMap.delete k m)) <-> x <> k /\ In x (JsMap.keys m).
Proof.
  induction m as [|[k' v'] m IH]; simpl; [tauto|].
  destruct (decide (k = k')) as [->|Hne]; simpl; rewrite IH; intuition congruence.
Qed.

Lemma NoDup_keys_set m k v :
  NoDup (JsMap.keys m) -> NoDup (JsMap.keys (JsMap.set k v m)).
Proof.
  induction m as [|[k' v'] m IH]; simpl; intros Hnd.
  - apply NoDup_singleton.
  - apply NoDup_cons in Hnd as [Hnotin Hnd].
    destruct (decide (k = k')) as [->|Hne]; simpl; apply NoDup_cons.
    + split; assumption.
    + split; [|auto].
      rewrite list_elem_of_In, keys_set, <- list_elem_of_In. intuition congruence.
Qed.

Lemma NoDup_keys_delete m k :
  NoDup (JsMap.keys m) -> NoDup (JsMap.keys (JsMap.delete k m)).
Proof.
  induction m as [|[k' v'] m IH]; simpl; intros Hnd; [constructor|].
  apply NoDup_cons in Hnd as [Hnotin Hnd].
  destruct (decide (k = k')); simpl; [auto|].
  apply NoDup_cons. split; [|auto].
  rewrite list_elem_of_In, keys_delete, <- list_elem_of_In. tauto.
Qed.

Lemma delete_absent m k : ~ In k (JsMap.keys m) -> JsMap.delete k m = m.
Proof.
  induction m as [|[k' v'] m IH]; simpl; [done|].
  intros Hnotin. destruct (decide (k = k')) as [->|Hne]; [tauto|].
  f_equal. apply IH. tauto.
Qed.
End JsMap_facts.

(** ** Hoare rules *)

Section triples.
Context (X : World -> Prop).

Lemma triple_weaken {A} (P P' : World -> Prop) (Q Q' : A -> World -> Prop) m :
  triple X P' m Q' ->
  (forall w, P w -> P' w) -> (forall a w, Q' a w -> Q a w) ->
  triple X P m Q.
Proof.
  intros Hm HP HQ w Hw. specialize (Hm w (HP w Hw)).
  destruct (m w) as [[a| |] w']; auto.
Qed.

Lemma triple_ret {A} (P : World -> Prop) (a : A) Q :
  (forall w, P w -> Q a w) -> triple X P (ret a) Q.
Proof. intros H w Hw. simpl. auto. Qed.

Lemma triple_throw {A} (P : World -> Prop) e (Q : A -> World -> Prop) :
  (forall w, P w -> X w) -> triple X P (throw e) Q.
Proof. intros H w Hw. simpl. auto. Qed.

Lemma triple_bind {A B} (P : World -> Prop) (m : M A) (k : A -> M B) Q R :
  triple X P m Q -> (forall a, triple X (Q a) (k a) R) ->
  triple X P (bind m k) R.
Proof.
  intros Hm Hk w Hw. unfold bind. specialize (Hm w Hw).
  destruct (m w) as [[a| |] w']; auto. apply Hk, Hm.
Qed.

Lemma triple_try_catch {A} (P : World -> Prop) (body : M A) handler Q :
  triple X P body Q -> (forall e, triple X X (handler e) Q) ->
  triple X P (try_catch body handler) Q.
Proof.
  intros Hb Hh w Hw. unfold try_catch. specialize (Hb w Hw).
  destruct (body w) as [[a| e |] w']; auto. apply Hh, Hb.
Qed.

Lemma triple_finally {A} (P : World -> Prop) (body : M A) cleanup Q Q' :
  triple X P body Q' ->
  (forall a w, Q' a w -> Q a (cleanup w)) ->
  (forall w, X w -> X (cleanup w)) ->
  triple X P (finally body cleanup) Q.
Proof.
  intros Hb HQ HX w Hw. unfold finally. specialize (Hb w Hw).
  destruct (body w) as [[a| e |] w']; auto.
Qed.

Lemma triple_gets {A} (P : World -> Prop) (f : World -> A) Q :
  (forall w, P w -> Q (f w) w) -> triple X P (gets f) Q.
Proof. intros H w Hw. simpl. auto. Qed.

Lemma triple_modify (P : World -> Prop) f Q :
  (forall w, P w -> Q tt (f w)) -> triple X P (modify f) Q.
Proof. intros H w Hw. simpl. auto. Qed.

Lemma triple_await {A} (P : World -> Prop) (r : Reply A) Q :
  (forall w z a, P w -> Q a (with_clock z w)) ->
  (forall w z, P w -> X (with_clock z w)) ->
  (forall w, P w -> X w) ->
  triple X P (await r) Q.
Proof.
  intros HQ HX HN w Hw. unfold await.
  destruct r as [d [a|e]|]; auto.
Qed.

Lemma triple_call {A} (P : World -> Prop) (r : A + Thrown) Q :
  (forall w a, P w -> Q a w) -> (forall w, P w -> X w) ->
  triple X P (call r) Q.
Proof. intros HQ HX w Hw. destruct r; simpl; auto. Qed.

Lemma triple_deref (P : World -> Prop) r Q :
  (forall w s, P w -> heap w !! r = Some s -> Q s w) ->
  (forall w, P w -> X w) ->
  triple X P (deref r) Q.
Proof.
  intros HQ HX w Hw. unfold deref.
  destruct (heap w !! r) eqn:E; auto.
Qed.

Lemma triple_for_each {A} (I : World -> Prop) (xs : list A) body :
  (forall x, In x xs -> triple X I (body x) (fun _ => I)) ->
  triple X I (for_each xs body) (fun _ => I).
Proof.
  induction xs as [|x xs IH]; intros Hbody; simpl.
  - apply triple_ret. auto.
  - apply triple_bind with (Q := fun _ => I).
    + apply Hbody. simpl; auto.
    + intros _. apply IH. intros y Hy. apply Hbody. simpl; auto.
Qed.
End triples.

(** ** Rules for invariants *)

Section preservation.
Context (I : World -> Prop).

Lemma preserves_ret {A} (a : A) : preserves I (ret a).
Proof. apply triple_ret. auto. Qed.

Lemma preserves_throw {A} e : preserves I (@throw A e).
Proof. apply triple_throw. auto. Qed.

Lemma preserves_bind {A B} (m : M A) (k : A -> M B) :
  preserves I m -> (forall a, preserves I (k a)) -> preserves I (bind m k).
Proof. intros Hm Hk. eapply triple_bind; [exact Hm | exact Hk]. Qed.

Lemma preserves_try_catch {A} (body : M A) handler :
  preserves I body -> (forall e, preserves I (handler e)) ->
  preserves I (try_catch body handler).
Proof. intros Hb Hh. apply triple_try_catch; [exact Hb | exact Hh]. Qed.

Lemma preserves_finally {A} (body : M A) cleanup :
  preserves I body -> (forall w, I w -> I (cleanup w)) ->
  preserves I (finally body cleanup).
Proof. intros Hb Hc. eapply triple_finally; [exact Hb | auto | auto]. Qed.

Lemma preserves_gets {A} (f : World -> A) : preserves I (gets f).
Proof. apply triple_gets. auto. Qed.

Lemma preserves_modify f : (forall w, I w -> I (f w)) -> preserves I (modify f).
Proof. intros H. apply triple_modify. auto. Qed.

Lemma preserves_await {A} (r : Reply A) :
  (forall w z, I w -> I (with_clock z w)) -> preserves I (await r).
Proof. intros H. apply triple_await; auto. Qed.

Lemma preserves_call {A} (r : A + Thrown) : preserves I (call r).
Proof. apply triple_call; auto. Qed.

Lemma preserves_deref r : preserves I (deref r).
Proof. apply triple_deref; auto. Qed.

Lemma preserves_for_each {A} (xs : list A) body :
  (forall x, preserves I (body x)) -> preserves I (for_each xs body).
Proof. intros H. apply triple_for_each. intros x _. apply H. Qed.

Lemma preserves_quiet {A} (m : M A) : preserves I m -> preserves I (quiet m).
Proof.
  intros H. apply preserves_bind; [exact H | intros; apply preserves_ret].
Qed.
End preservation.

(** Decomposes a goal [preserves I m] along the structure of [m]. *)
Ltac preserve_step :=
  lazymatch goal with
  | |- preserves _ (bind _ _) => apply preserves_bind; [|intros]
  | |- preserves _ (ret _) => apply preserves_ret
  | |- preserves _ (throw _) => apply preserves_throw
  | |- preserves _ (gets _) => apply preserves_gets
  | |- preserves _ Date_now => apply preserves_gets
  | |- preserves _ tick => apply preserves_gets
  | |- preserves _ (getTimeout _) => apply preserves_gets
  | |- preserves _ (call _) => apply preserves_call
  | |- preserves _ (deref _) => apply preserves_deref
  | |- preserves _ (try_catch _ _) => apply preserves_try_catch; [|intros]
  | |- preserves _ (for_each _ _) => apply preserves_for_each; intros
  | |- preserves _ (quiet _) => apply preserves_quiet
  | |- preserves _ (match ?x with _ => _ end) => destruct x
  end.

Ltac as_preserves :=
  lazymatch goal with
  | |- triple ?X ?X ?m (fun _ => ?X) => change (preserves X m)
  | |- _ => idtac
  end.

Ltac preserve := as_preserves; repeat (cbv beta zeta; preserve_step).

(** Closes the goals left by [preserve] for steps that do not touch the
    component under consideration. *)
Ltac untouched :=
  lazymatch goal with
  | |- preserves _ (modify _) =>
      apply preserves_modify; let H := fresh in intros ? H; exact H
  | |- preserves _ (effect _) =>
      apply preserves_modify; let H := fresh in intros ? H; exact H
  | |- preserves _ (await _) =>
      apply preserves_await; let H := fresh in intros ? ? H; exact H
  end.

(** ** The registry invariant *)

Section invariants.
Context (env : Env) (g : UserSession -> Prop) (ok : EventArgs -> Prop).
Context (Hg : session_property g ok).

Lemma invariant_frame w w' :
  session_state w' = session_state w -> invariant g w -> invariant g w'.
Proof.
  unfold session_state. intros [= Hh Hr Hd] [[H1 H2 H3 H4] H5].
  split; [split|]; rewrite ?Hh, ?Hr, ?Hd; assumption.
Qed.

Lemma invariant_alter w r f :
  invariant g w ->
  (forall s, heap w !! r = Some s -> g s -> g (f s)) ->
  invariant g (with_heap (alter f r (heap w)) w).
Proof.
  intros [[H1 H2 H3 H4] H5] Hf.
  split; [split|]; simpl; rewrite ?length_alter; try assumption.
  apply Forall_alter; assumption.
Qed.

Lemma invariant_alloc w s :
  invariant g w -> g s -> invariant g (with_heap (heap w ++ [s]) w).
Proof.
  intros [[H1 H2 H3 H4] H5] Hs.
  split; [split|]; simpl; rewrite ?length_app; simpl; try assumption.
  - eapply Forall_impl; [exact H1 | simpl; intros; lia].
  - eapply Forall_impl; [exact H2 | simpl; intros; lia].
  - apply Forall_app. split; [assumption | constructor; [assumption | constructor]].
Qed.

Lemma Forall_values_set (P : Ref -> Prop) m k r :
  Forall P (JsMap.values m) -> P r -> Forall P (JsMap.values (JsMap.set k r m)).
Proof.
  rewrite !List.Forall_forall. intros Hm Hr x Hx.
  apply values_set in Hx as [->|Hx]; auto.
Qed.

Lemma Forall_values_delete (P : Ref -> Prop) m k :
  Forall P (JsMap.values m) -> Forall P (JsMap.values (JsMap.delete k m)).
Proof.
  rewrite !List.Forall_forall. intros Hm x Hx. apply values_delete in Hx. auto.
Qed.

Lemma invariant_registry_set w k r :
  invariant g w -> (r < length (heap w))%nat ->
  invariant g (with_userSessions (JsMap.set k r (userSessions w)) w).
Proof.
  intros [[H1 H2 H3 H4] H5] Hr.
  split; [split|]; simpl; try assumption.
  - apply Forall_values_set; assumption.
  - apply NoDup_keys_set; assumption.
Qed.

Lemma invariant_store_set w k r :
  invariant g w -> (r < length (heap w))%nat ->
  invariant g (with_db_sessions (JsMap.set k r (db_sessions w)) w).
Proof.
  intros [[H1 H2 H3 H4] H5] Hr.
  split; [split|]; simpl; try assumption.
  - apply Forall_values_set; assumption.
  - apply NoDup_keys_set; assumption.
Qed.

Lemma invariant_registry_delete w k :
  invariant g w ->
  invariant g (with_userSessions (JsMap.delete k (userSessions w)) w).
Proof.
  intros [[H1 H2 H3 H4] H5].
  split; [split|]; simpl; try assumption.
  - apply Forall_values_delete; assumption.
  - apply NoDup_keys_delete; assumption.
Qed.

Lemma invariant_store_delete w k :
  invariant g w ->
  invariant g (with_db_sessions (JsMap.delete k (db_sessions w)) w).
Proof.
  intros [[H1 H2 H3 H4] H5].
  split; [split|]; simpl; try assumption.
  - apply Forall_values_delete; assumption.
  - apply NoDup_keys_delete; assumption.
Qed.

Lemma invariant_new customTimeouts interval now :
  invariant g (new_World customTimeouts interval now).
Proof.
  split; [split|]; simpl; constructor.
Qed.

(** Steps that leave the session objects and both maps alone. *)
Lemma preserves_frame {A} (m : M A) :
  keeps session_state m -> preserves (invariant g) m.
Proof.
  intros Hm w Hw. specialize (Hm (session_state w) w eq_refl).
  destruct (m w) as [[a| |] w']; eapply invariant_frame; eauto.
Qed.

Lemma preserves_effect e : preserves (invariant g) (effect e).
Proof.
  apply preserves_modify. intros w. apply invariant_frame. reflexivity.
Qed.

Lemma preserves_await_inv {A} (r : Reply A) : preserves (invariant g) (await r).
Proof.
  apply preserves_await. intros w z. apply invariant_frame. reflexivity.
Qed.

Lemma preserves_assign r f :
  (forall s, g s -> g (f s)) -> preserves (invariant g) (assign r f).
Proof.
  intros Hf. apply preserves_modify. intros w Hw.
  apply invariant_alter; auto.
Qed.
End invariants.

(** ** Steps that leave the sessions alone *)

Section frames.
Context (env : Env).

Lemma keeps_sessions_createWalletConnectClient user :
  keeps session_state (createWalletConnectClient env user).
Proof.
  intros v. unfold createWalletConnectClient. preserve; untouched.
Qed.

Lemma keeps_sessions_generateQRCode uri :
  keeps session_state (generateQRCode env uri).
Proof.
  intros v. unfold generateQRCode. preserve; untouched.
Qed.

Lemma keeps_sessions_race {A} (promise : Reply A) timeout rejection :
  keeps session_state (race env promise timeout rejection).
Proof.
  intros v w Hw. unfold race.
  destruct promise as [d [a|e]|]; simpl;
    repeat match goal with |- context [if ?b then _ else _] => destruct b end;
    simpl; exact Hw.
Qed.

Lemma keeps_sessions_clearTimer_ operation w :
  session_state (clearTimer_ operation w) = session_state w.
Proof. unfold clearTimer_. destruct (JsMap.get operation (timers w)); reflexivity. Qed.

Lemma keeps_sessions_createTimeout {A} operation (promise : Reply A) kind :
  keeps session_state (createTimeout env operation promise kind).
Proof.
  intros v. unfold createTimeout, arm_timer. preserve.
  apply preserves_finally.
  - preserve; try untouched. apply keeps_sessions_race.
  - intros w <-. apply keeps_sessions_clearTimer_.
Qed.

Lemma keeps_sessions_wc_request s chainId method params :
  keeps session_state (wc_request env s chainId method params).
Proof. intros v. unfold wc_request. preserve; untouched. Qed.
End frames.

(** ** [validateSession] *)

(** The state in which [validateSession] leaves a session it was given. *)
Lemma validateSession_spec r w s :
  heap w !! r = Some s ->
  validateSession r w =
    (Resolved (valid_at (clock w) s),
     if isActive s && truthy (topic s) && (maxAge <? clock w - lastActivity s)
     then with_heap (alter (set_isActive false) r (heap w)) w
     else w).
Proof.
  intros Hr. unfold validateSession, bind, deref, valid_at. rewrite Hr.
  destruct (isActive s); simpl; [|reflexivity].
  destruct (truthy (topic s)); simpl; [|reflexivity].
  destruct (maxAge <? clock w - lastActivity s); reflexivity.
Qed.

Lemma validateSession_dangling r w :
  heap w !! r = None -> exists e, validateSession r w = (Rejected e, w).
Proof.
  intros Hr. unfold validateSession, bind, deref. rewrite Hr. eauto.
Qed.

Lemma valid_at_inv now s :
  valid_at now s = true ->
  isActive s = true /\ truthy (topic s) = true /\ now - lastActivity s <= maxAge.
Proof.
  unfold valid_at. intros H.
  apply andb_prop in H as [H H3]. apply andb_prop in H as [H1 H2].
  apply negb_true_iff, Z.ltb_ge in H3. auto.
Qed.

(** A session that is found valid is left as it was. *)
Lemma validateSession_true r w w' :
  validateSession r w = (Resolved true, w') ->
  w' = w /\ exists s, heap w !! r = Some s /\ valid_at (clock w) s = true.
Proof.
  destruct (heap w !! r) as [s|] eqn:Hr.
  - rewrite (validateSession_spec _ _ _ Hr). intros [= Hv Hw].
    destruct (valid_at_inv _ _ Hv) as (H1 & H2 & H3).
    apply Z.ltb_ge in H3. rewrite H1, H2, H3 in Hw. simpl in Hw.
    split; [congruence | eauto].
  - destruct (validateSession_dangling _ _ Hr) as [e ->]. discriminate.
Qed.

(** ** Every call keeps the registry invariant *)

Section calls_keep_invariant.
Context (env : Env) (g : UserSession -> Prop) (ok : EventArgs -> Prop).
Context (Hg : session_property g ok).

Local Abbreviation I := (invariant g).

(** A fact about the session state that survives a step which leaves the
    sessions alone. *)
Lemma triple_frame {A} (P : World -> Prop) (m : M A) :
  keeps session_state m ->
  (forall w w', session_state w' = session_state w -> P w -> P w') ->
  (forall w, P w -> I w) ->
  triple I P m (fun _ => P).
Proof.
  intros Hm Hst HPI w Hw. specialize (Hm (session_state w) w eq_refl).
  destruct (m w) as [[a| |] w']; [eapply Hst; eauto | |];
    eapply invariant_frame; eauto.
Qed.

Ltac framed :=
  first
    [ apply (preserves_frame g), keeps_sessions_createWalletConnectClient
    | apply (preserves_frame g), keeps_sessions_generateQRCode
    | apply (preserves_frame g), keeps_sessions_createTimeout
    | apply (preserves_frame g), keeps_sessions_wc_request
    | apply preserves_effect
    | apply preserves_await_inv
    | apply preserves_modify; intros ?; apply invariant_frame; reflexivity ].

Lemma preserves_validateSession r : preserves I (validateSession r).
Proof.
  unfold validateSession. preserve.
  apply preserves_assign. apply (sp_inactive _ _ Hg).
Qed.

Lemma triple_validateSession r :
  triple I I (validateSession r)
    (fun b w => I w /\
       (b = true -> exists s, heap w !! r = Some s /\ truthy (topic s) = true)).
Proof.
  intros w Hw. pose proof (preserves_validateSession r w Hw) as Hp.
  destruct (validateSession r w) as [[b| |] w'] eqn:E; try assumption.
  split; [assumption|]. intros ->.
  apply validateSession_true in E as [-> (s & Hs & Hv)].
  apply valid_at_inv in Hv as (_ & Ht & _). eauto.
Qed.

Lemma preserves_isConnected user : preserves I (isConnected user).
Proof. unfold isConnected. preserve. apply preserves_validateSession. Qed.

Lemma preserves_getSession user : preserves I (getSession user).
Proof. unfold getSession. preserve. apply preserves_validateSession. Qed.

Lemma preserves_collect_valid sessions : preserves I (collect_valid sessions).
Proof.
  induction sessions as [|r rest IH]; simpl; preserve;
    [apply preserves_validateSession | apply IH].
Qed.

Lemma preserves_getAllSessions : preserves I getAllSessions.
Proof. unfold getAllSessions. preserve. apply preserves_collect_valid. Qed.

Lemma preserves_collect_expired entries : preserves I (collect_expired entries).
Proof.
  induction entries as [|[user r] rest IH]; simpl; preserve;
    [apply preserves_validateSession | apply IH].
Qed.

Lemma preserves_clearTimer operation : preserves I (clearTimer operation).
Proof.
  apply preserves_modify. intros w. apply invariant_frame.
  apply keeps_sessions_clearTimer_.
Qed.

Lemma preserves_clearAllTimers : preserves I (clearAllTimers).
Proof. unfold clearAllTimers. preserve; framed. Qed.

Lemma preserves_on_session_connect client args :
  ok args -> preserves I (on_session_connect client args).
Proof.
  intros Hok. unfold on_session_connect.
  apply preserves_bind; [apply preserves_gets|]. intros [r|]; [|apply preserves_ret].
  apply preserves_bind; [apply preserves_gets|]. intros now.
  unfold preserves. eapply triple_bind with
    (Q := fun _ w => I w /\
            forall s, heap w !! r = Some s ->
                      exists s0, g s0 /\ s = set_topic (a_topic args) s0).
  { apply triple_modify. intros w Hw. split.
    - apply invariant_alter; [assumption|]. intros s _. apply (sp_topic _ _ Hg _ _ Hok).
    - simpl. intros s. rewrite list_lookup_alter_eq.
      destruct (heap w !! r) as [s0|] eqn:E; simpl; intros Hs; [|discriminate].
      injection Hs as <-. exists s0. split; [|reflexivity].
      destruct Hw as [_ Hall]. eapply Forall_lookup_1; eauto. }
  intros _. eapply triple_bind with (Q := fun _ => I).
  { apply triple_modify. intros w [Hw Ht].
    apply invariant_alter; [assumption|].
    intros s Hs _. destruct (Ht s Hs) as (s0 & Hs0 & ->).
    apply (sp_approved _ _ Hg); assumption. }
  intros _. preserve;
    try (apply preserves_assign; intros;
         first [ apply (sp_sessionData _ _ Hg) | apply (sp_updatedAt _ _ Hg)
               | apply (sp_lastActivity _ _ Hg) | apply (sp_address _ _ Hg) ];
         assumption);
    try apply preserves_clearTimer; framed.
Qed.

Lemma preserves_on_session_event args : preserves I (on_session_event args).
Proof. unfold on_session_event, findSessionByTopic. preserve; framed. Qed.

Lemma preserves_on_session_update args : preserves I (on_session_update args).
Proof.
  unfold on_session_update, findSessionByTopic. preserve;
    try (apply preserves_assign; intros;
         first [ apply (sp_sessionData _ _ Hg) | apply (sp_updatedAt _ _ Hg)
               | apply (sp_lastActivity _ _ Hg) ];
         assumption);
    framed.
Qed.

Lemma preserves_on_session_delete args : preserves I (on_session_delete args).
Proof. unfold on_session_delete, findSessionByTopic. preserve; framed. Qed.

Lemma preserves_db_saveSession_new r :
  triple I (fun w => I w /\ (r < length (heap w))%nat) (db_saveSession r)
         (fun _ => I).
Proof.
  unfold db_saveSession. eapply triple_bind.
  - apply triple_deref with
      (Q := fun _ w => I w /\ (r < length (heap w))%nat); [auto | tauto].
  - intros s. apply triple_modify. intros w [Hw Hr].
    apply invariant_store_set; assumption.
Qed.

(** The part of [connect] that records a new pending session. *)
Lemma preserves_connect_record user client now (k : Ref -> M ConnectionResponse) :
  (forall r, preserves I (k r)) ->
  preserves I
    (let* session := alloc (mkSession user client None None None false now now now) in
     modify (fun w =>
       with_userSessions (JsMap.set user session (userSessions w)) w) ;;;
     db_saveSession session ;;; k session).
Proof.
  intros Hk. unfold preserves.
  eapply triple_bind with
    (Q := fun r w => I w /\ (r < length (heap w))%nat).
  { intros w Hw. simpl. split.
    - apply invariant_alloc; [assumption | apply (sp_new _ _ Hg)].
    - rewrite length_app. simpl. lia. }
  intros r. eapply triple_bind with
    (Q := fun _ w => I w /\ (r < length (heap w))%nat).
  { apply triple_modify. intros w [Hw Hr]. split; [|exact Hr].
    apply invariant_registry_set; assumption. }
  intros _. eapply triple_bind; [apply preserves_db_saveSession_new|].
  intros ?. apply Hk.
Qed.

Lemma preserves_connect request : preserves I (connect env request).
Proof.
  unfold connect. apply preserves_try_catch; [|intros; preserve; framed].
  apply preserves_bind; [apply preserves_gets|]. intros existingSession.
  apply preserves_bind.
  { destruct existingSession; [apply preserves_validateSession | apply preserves_ret]. }
  intros valid.
  assert (Hnew : preserves I
    (let* wcClient := createWalletConnectClient env (cr_userId request) in
     let methods := default default_methods (cr_methods request) in
     let chains :=
       match cr_chainId request with
       | Some c => if c =? 0 then ["eip155:1"] else ["eip155:" +:+ pretty c]
       | None => ["eip155:1"]
       end in
     let events :=
       default ["chainChanged"; "accountsChanged"] (cr_events request) in
     let* n := tick in
     effect (Handshake wcClient methods chains events) ;;;
     let* uri := await (client_connect env n wcClient methods chains events) in
     if invalid_uri uri then
       throw (WalletConnectSDKError
                "Invalid connection URI received from WalletConnect"
                "UNKNOWN_ERROR")
     else
       let* qrCode := generateQRCode env uri in
       let deepLinks := generateDeepLinks env (default "" uri) in
       let* now := Date_now in
       let* session :=
         alloc (mkSession (cr_userId request) wcClient None None None
                          false now now now) in
       modify (fun w =>
         with_userSessions
           (JsMap.set (cr_userId request) session (userSessions w)) w) ;;;
       db_saveSession session ;;;
       effect (Emit "session_connect" (Some (cr_userId request))) ;;;
       let* timeout := getTimeout connection in
       ret (mkConnectionResponse true uri (Some qrCode) uri None
              (Some deepLinks) (Some timeout) (Some timeout)))).
  { apply preserves_bind; [framed|]. intros wcClient. cbv zeta.
    apply preserves_bind; [apply preserves_gets|]. intros n.
    apply preserves_bind; [framed|]. intros _.
    apply preserves_bind; [framed|]. intros uri.
    destruct (invalid_uri uri); [apply preserves_throw|].
    apply preserves_bind; [framed|]. intros qrCode.
    apply preserves_bind; [apply preserves_gets|]. intros now.
    apply preserves_connect_record. intros r. preserve; framed. }
  destruct existingSession as [r|], valid; try exact Hnew.
  preserve.
Qed.

Lemma preserves_disconnect user : preserves I (disconnect env user).
Proof.
  unfold disconnect, db_deleteSession. preserve; try framed.
  all: apply preserves_modify; intros w;
    first [apply invariant_registry_delete | apply invariant_store_delete].
Qed.

Lemma preserves_cleanupSessions : preserves I (cleanupSessions env).
Proof.
  unfold cleanupSessions. preserve.
  - apply preserves_collect_expired.
  - apply preserves_disconnect.
Qed.

Lemma preserves_destroy : preserves I (destroy env).
Proof.
  unfold destroy, db_disconnect. preserve; try framed.
  all: apply preserves_disconnect.
Qed.

Lemma preserves_restoreSessions : preserves I (restoreSessions env).
Proof.
  unfold restoreSessions, db_getAllSessions.
  apply preserves_try_catch; [|intros; apply preserves_ret].
  apply preserves_bind; [apply preserves_gets|]. intros sessions.
  apply preserves_for_each. intros session. unfold preserves.
  eapply triple_bind; [apply triple_validateSession|].
  intros [|]; [|apply triple_ret; tauto].
  pose (P := fun w : World =>
    I w /\ exists s, heap w !! session = Some s /\ truthy (topic s) = true).
  assert (HP : forall w w', session_state w' = session_state w -> P w -> P w').
  { intros w w' Hss [Hw Hs]. split; [eapply invariant_frame; eauto|].
    unfold session_state in Hss. injection Hss as Hh _ _. rewrite Hh. exact Hs. }
  eapply triple_bind with (Q := fun _ => P).
  { apply triple_deref; [|tauto]. intros w s [Hw Hs] _. split; auto. }
  intros s. eapply triple_bind with (Q := fun _ => P).
  { apply triple_frame;
      [apply keeps_sessions_createWalletConnectClient | exact HP | unfold P; tauto]. }
  intros wcClient. eapply triple_bind with (Q := fun _ => P).
  { apply triple_modify. intros w [Hw (s0 & Hs0 & Ht)]. split.
    - apply invariant_alter; [assumption|]. intros; apply (sp_wcClient _ _ Hg); auto.
    - exists (set_wcClient wcClient s0). simpl.
      rewrite list_lookup_alter_eq, Hs0. auto. }
  intros _. eapply triple_bind with (Q := fun _ => P).
  { apply triple_modify. intros w [Hw (s0 & Hs0 & Ht)]. split.
    - apply invariant_alter; [assumption|].
      intros s1 Hs1 Hg1. apply (sp_active _ _ Hg); [assumption|].
      rewrite Hs0 in Hs1. injection Hs1 as <-. exact Ht.
    - exists (set_isActive true s0). simpl.
      rewrite list_lookup_alter_eq, Hs0. auto. }
  intros _. apply triple_modify. intros w [Hw (s0 & Hs0 & Ht)].
  apply invariant_registry_set; [assumption|].
  eapply lookup_lt_Some; eauto.
Qed.

Lemma preserves_init : preserves I (init env).
Proof.
  unfold init, db_connect. preserve; try framed.
  apply preserves_restoreSessions.
Qed.

Lemma preserves_connected_session user : preserves I (connected_session user).
Proof. unfold connected_session. preserve. apply preserves_getSession. Qed.

Lemma preserves_getAccounts user : preserves I (getAccounts env user).
Proof. unfold getAccounts. preserve; try framed. apply preserves_getSession. Qed.

Lemma preserves_perform op : preserves I (perform env op).
Proof.
  destruct op; simpl;
    [ unfold sendTransaction | unfold signMessage | unfold signTypedData
    | unfold callContract | unfold readContract | unfold estimateGas ];
    unfold waitForGasEstimation, waitForUserInteraction;
    preserve; try framed; apply preserves_connected_session.
Qed.

Lemma preserves_run c :
  (forall client args, c = event_session_connect client args -> ok args) ->
  preserves I (run env c).
Proof.
  intros Hc. destruct c; simpl; preserve.
  - apply preserves_init.
  - apply preserves_connect.
  - apply preserves_disconnect.
  - apply preserves_isConnected.
  - apply preserves_getSession.
  - apply preserves_getAllSessions.
  - apply preserves_getAccounts.
  - apply preserves_perform.
  - apply preserves_validateSession.
  - apply preserves_cleanupSessions.
  - apply preserves_destroy.
  - framed.
  - apply preserves_clearTimer.
  - apply preserves_clearAllTimers.
  - apply preserves_on_session_connect. eapply Hc; reflexivity.
  - apply preserves_on_session_event.
  - apply preserves_on_session_update.
  - apply preserves_on_session_delete.
  - framed.
Qed.

(** The invariant holds in every state the instance reaches. *)
Lemma reachable_invariant admissible w :
  (forall client args, admissible (event_session_connect client args) -> ok args) ->
  reachable env admissible w -> invariant g w.
Proof.
  intros Hadm Hr. induction Hr as [| w c Hr IH Hc].
  - apply invariant_new.
  - unfold step. pose proof (preserves_run c) as Hp.
    specialize (Hp (fun client args Heq => Hadm client args (eq_ind _ _ Hc _ Heq)) w IH).
    destruct (run env c w) as [[[]| |] w']; exact Hp.
Qed.
End calls_keep_invariant.

(** ** Invariants of the reachable states *)

Lemma active_has_topic_property :
  session_property active_has_topic (fun args => truthy (a_topic args) = true).
Proof.
  split; unfold active_has_topic; simpl; auto; discriminate.
Qed.

Lemma any_session_property : session_property (fun _ => True) (fun _ => True).
Proof. split; auto. Qed.

Lemma reachable_active_has_topic env w :
  reachable env approvals_carry_topic w -> invariant active_has_topic w.
Proof.
  apply (reachable_invariant env _ _ active_has_topic_property).
  intros client args H. exact H.
Qed.

Lemma reachable_well_formed env admissible w :
  reachable env admissible w -> well_formed w.
Proof.
  intros H.
  apply (reachable_invariant env _ _ any_session_property admissible w); auto.
Qed.

Lemma well_formed_lookup w user r :
  well_formed w -> JsMap.get user (userSessions w) = Some r ->
  exists s, heap w !! r = Some s.
Proof.
  intros Hwf Hget. apply get_Some_values in Hget.
  destruct Hwf as [H1 _ _ _]. rewrite List.Forall_forall in H1.
  apply lookup_lt_is_Some_2, H1, Hget.
Qed.

(** ** Sample states are reachable *)

Lemma reachable_fresh env admissible : reachable env admissible fresh_world.
Proof. apply reachable_new. Qed.

Lemma reachable_pending env : reachable env any_call (pending_world env).
Proof. apply reachable_step; [apply reachable_fresh | exact Logic.I]. Qed.

Lemma reachable_approved env : reachable env any_call (approved_world env).
Proof. apply reachable_step; [apply reachable_pending | exact Logic.I]. Qed.

Lemma reachable_any env admissible w :
  reachable env admissible w -> reachable env any_call w.
Proof.
  induction 1; [apply reachable_new | apply reachable_step; [assumption | exact Logic.I]].
Qed.

(** ** C10: [validateSession] is not a pure query *)

(** C10 (as stated, refuted): a session whose last activity is older than
    24 hours is not always deactivated by [validateSession].  The check of
    the age comes after the checks of [isActive] and [topic]: a session
    flagged active without a topic is reported invalid and stays flagged
    active. *)
Lemma validateSession_leaves_topicless_session_active :
  heap topicless_world !! 0%nat = Some topicless_session /\
  maxAge < clock topicless_world - lastActivity topicless_session /\
  validateSession 0%nat topicless_world = (Resolved false, topicless_world) /\
  isActive topicless_session = true.
Proof. repeat split. Qed.

(** C10 (amended): [validateSession] answers by the validity rule and is not
    a pure query: when the session is active, has a non-empty topic and its
    last activity is older than 24 hours, it sets [isActive] to false before
    returning false, and otherwise leaves the state alone; so a mere
    [isConnected(userId)] or [getSession(userId)] changes the registered
    session. *)
Theorem validateSession_deactivates_expired_session w r s :
  heap w !! r = Some s ->
  let expired :=
    isActive s && truthy (topic s) && (maxAge <? clock w - lastActivity s) in
  let w' := with_heap (alter (set_isActive false) r (heap w)) w in
  validateSession r w =
    (Resolved (valid_at (clock w) s), if expired then w' else w) /\
  (expired = true ->
     validateSession r w = (Resolved false, w') /\
     heap w' !! r = Some (set_isActive false s) /\
     w' <> w /\
     forall user, JsMap.get user (userSessions w) = Some r ->
       isConnected user w = (Resolved false, w') /\
       getSession user w = (Resolved None, w') /\
       session_of w' user = Some (set_isActive false s)).
Proof.
  intros Hr expired w'. split; [apply validateSession_spec; exact Hr|].
  intros Hexp.
  assert (Hv : validateSession r w = (Resolved false, w')).
  { rewrite (validateSession_spec _ _ _ Hr). fold expired. rewrite Hexp.
    unfold valid_at. unfold expired in Hexp.
    apply andb_prop in Hexp as [Hexp ->]. rewrite Hexp. reflexivity. }
  assert (Hl : heap w' !! r = Some (set_isActive false s)).
  { unfold w'. simpl. rewrite list_lookup_alter_eq, Hr. reflexivity. }
  repeat split; try assumption.
  - intros Heq. rewrite Heq, Hr in Hl. injection Hl as Hl.
    unfold expired in Hexp. apply andb_prop in Hexp as [Hexp _].
    apply andb_prop in Hexp as [Ha _].
    apply (f_equal isActive) in Hl. simpl in Hl. congruence.
  - unfold isConnected, bind, gets. cbv beta. rewrite H. exact Hv.
  - unfold getSession, bind, gets. cbv beta. rewrite H, Hv. reflexivity.
  - unfold session_of. change (userSessions w') with (userSessions w).
    rewrite H. exact Hl.
Qed.

Lemma validateSession_deactivates_expired_session_witness :
  heap (stale_world obliging_env) !! 0%nat = Some approved_session /\
  validateSession 0%nat (stale_world obliging_env) =
    (Resolved false,
     with_heap [set_isActive false approved_session] (stale_world obliging_env)) /\
  isConnected "u1" (stale_world obliging_env) =
    (Resolved false,
     with_heap [set_isActive false approved_session] (stale_world obliging_env)).
Proof.
  pose proof (validateSession_deactivates_expired_session
                (stale_world obliging_env) 0%nat approved_session eq_refl)
    as [_ H].
  destruct (H eq_refl) as (Hv & _ & _ & Hu).
  split; [reflexivity|]. split; [exact Hv|].
  exact (proj1 (Hu "u1" eq_refl)).
Defined.

(** ** C8: an active session has a topic *)

(** C8 (as stated, refuted): the approval handler copies [args.topic] into
    the session and sets [isActive] without looking at it.  An approval
    event without topic leaves a registered session that is active and has
    no topic. *)
Lemma approval_without_topic_activates_session :
  reachable obliging_env any_call (approved_without_topic_world obliging_env) /\
  session_of (approved_without_topic_world obliging_env) "u1" =
    Some (mkSession "u1" 0%nat None None None true 1016 1016 1016).
Proof.
  split; [|reflexivity].
  apply reachable_step; [apply reachable_pending | exact Logic.I].
Qed.

(** C8 (amended): in every state that an SDK instance reaches while the
    approval events of its protocol clients carry a non-empty topic, every
    session of the registry with [isActive = true] has a non-empty topic.
    The calls that reach such a state include [connect] (which registers
    sessions with [isActive = false]), the approval handler (which assigns
    the topic, then sets [isActive]) and the restoration done by [init]. *)
Theorem active_sessions_have_topic env w user s :
  reachable env approvals_carry_topic w ->
  session_of w user = Some s ->
  isActive s = true -> truthy (topic s) = true.
Proof.
  intros Hreach Hs. apply reachable_active_has_topic in Hreach as [_ Hall].
  unfold session_of in Hs.
  destruct (JsMap.get user (userSessions w)) as [r|]; [|discriminate].
  simpl in Hs. exact (Forall_lookup_1 _ _ _ _ Hall Hs).
Qed.

Lemma active_sessions_have_topic_witness :
  reachable obliging_env approvals_carry_topic (approved_world obliging_env) /\
  session_of (approved_world obliging_env) "u1" = Some approved_session /\
  isActive approved_session = true /\
  truthy (topic approved_session) = true.
Proof.
  assert (Hreach : reachable obliging_env approvals_carry_topic
                             (approved_world obliging_env)).
  { apply reachable_step; [|reflexivity].
    apply reachable_step; [apply reachable_new | exact Logic.I]. }
  split; [exact Hreach|]. split; [reflexivity|]. split; [reflexivity|].
  exact (active_sessions_have_topic obliging_env (approved_world obliging_env)
           "u1" approved_session Hreach eq_refl eq_refl).
Defined.

(** ** C3: operations without a valid session *)

Lemma network_emit w type user :
  network (with_trace (trace w ++ [Emit type user]) w) = network w.
Proof.
  unfold network. simpl. rewrite filter_app. simpl. apply app_nil_r.
Qed.

Lemma network_same_trace w w' : trace w' = trace w -> network w' = network w.
Proof. unfold network. intros ->. reflexivity. Qed.

(** The guard of the operations, when the user has no valid session. *)
Lemma connected_session_not_connected w user :
  well_formed w -> connected w user = false ->
  exists w',
    connected_session user w =
      (Rejected (WalletConnectSDKError "User not connected" "SESSION_NOT_FOUND"),
       w') /\
    trace w' = trace w.
Proof.
  intros Hwf Hc. unfold connected, session_of in Hc.
  unfold connected_session, getSession, bind, gets. cbv beta.
  destruct (JsMap.get user (userSessions w)) as [r|] eqn:Hget; simpl in *.
  - destruct (well_formed_lookup _ _ _ Hwf Hget) as [s Hs].
    rewrite Hs in Hc. rewrite (validateSession_spec _ _ _ Hs), Hc. simpl.
    eexists. split; [reflexivity|].
    destruct (isActive s && truthy (topic s) && _); reflexivity.
  - eexists. split; reflexivity.
Qed.

(** The guard of the operations, when it lets the operation through. *)
Lemma connected_session_resolved w user s w' :
  connected_session user w = (Resolved s, w') ->
  w' = w /\ session_of w user = Some s /\ valid_at (clock w) s = true.
Proof.
  unfold connected_session, getSession, bind, gets, session_of. cbv beta.
  destruct (JsMap.get user (userSessions w)) as [r|] eqn:Hget; simpl;
    [|discriminate].
  destruct (validateSession r w) as [[[|]| |] w1] eqn:Hv; simpl;
    try discriminate.
  apply validateSession_true in Hv as [-> (s1 & Hs1 & Hvalid)].
  unfold deref. rewrite Hs1. simpl.
  destruct (truthy (topic s1)); simpl; [|discriminate].
  intros [= <- <-]. auto.
Qed.

(** C3: every operation of the facade ([sendTransaction], [signMessage],
    [signTypedData], [callContract], [readContract], [estimateGas]) called
    for a user without a currently valid active session resolves (it does
    not reject) with [{success: false, error: "User not connected"}], and
    makes no network request. *)
Theorem not_connected_operation_fails env w op :
  reachable env any_call w ->
  connected w (operation_user op) = false ->
  exists w',
    perform env op w =
      (Resolved (mkResponse false None (Some "User not connected")), w') /\
    network w' = network w.
Proof.
  intros Hreach Hc. apply reachable_well_formed in Hreach.
  destruct (connected_session_not_connected _ _ Hreach Hc) as (w1 & Hcs & Ht).
  destruct op; simpl in *;
    [ unfold sendTransaction | unfold signMessage | unfold signTypedData
    | unfold callContract | unfold readContract | unfold estimateGas ];
    unfold try_catch, bind; rewrite Hcs; simpl;
    eexists; (split; [reflexivity|]);
    rewrite ?network_emit; apply network_same_trace, Ht.
Qed.

Lemma not_connected_operation_fails_witness :
  reachable obliging_env any_call (pending_world obliging_env) /\
  connected (pending_world obliging_env) (operation_user u1_transfer) = false /\
  exists w',
    perform obliging_env u1_transfer (pending_world obliging_env) =
      (Resolved (mkResponse false None (Some "User not connected")), w') /\
    network w' = network (pending_world obliging_env).
Proof.
  split; [apply reachable_pending|]. split; [reflexivity|].
  apply (not_connected_operation_fails obliging_env
           (pending_world obliging_env) u1_transfer);
    [apply reachable_pending | reflexivity].
Defined.

(** ** C6: what a successful operation changes *)

Lemma triple_of_preserves {A} (X P : World -> Prop) (m : M A)
      (Q : A -> World -> Prop) :
  preserves P m -> (forall w, P w -> X w) -> (forall a w, P w -> Q a w) ->
  triple X P m Q.
Proof.
  intros Hm HX HQ w Hw. specialize (Hm w Hw).
  destruct (m w) as [[a| |] w']; auto.
Qed.

(** An operation that reports success has left the session objects, the
    registry and the store as they were. *)
Lemma operation_frame env op v :
  triple (fun _ => True) (fun w => session_state w = v) (perform env op)
         (fun response w => success response = true -> session_state w = v).
Proof.
  destruct op; simpl;
    [ unfold sendTransaction | unfold signMessage | unfold signTypedData
    | unfold callContract | unfold readContract | unfold estimateGas ];
    (apply triple_try_catch;
     [ eapply triple_bind with (Q := fun _ w => session_state w = v);
       [ intros w Hw;
         destruct (connected_session _ w) as [[s| |] w1] eqn:Hcs; try exact Logic.I;
         apply connected_session_resolved in Hcs as [-> _]; exact Hw
       | intros s; cbv beta zeta;
         apply triple_of_preserves; [|auto|auto];
         unfold waitForGasEstimation, waitForUserInteraction;
         preserve;
         lazymatch goal with
         | |- preserves _ (wc_request _ _ _ _ _) => apply keeps_sessions_wc_request
         | |- preserves _ (createTimeout _ _ _ _) => apply keeps_sessions_createTimeout
         | |- _ => untouched
         end ]
     | intros e w _; destruct e; simpl; discriminate ]).
Qed.

(** C6 (as stated, refuted): "u1" is connected; five seconds after the
    approval a [sendTransaction] succeeds, and the session still carries the
    [lastActivity] of the approval (1016), not the time of the operation. *)
Lemma successful_transaction_keeps_lastActivity :
  exists w',
    perform obliging_env u1_transfer (busy_world obliging_env) =
      (Resolved (mkResponse true (Some (hash (JStr "0xfeed"))) None), w') /\
    session_of (busy_world obliging_env) "u1" = Some approved_session /\
    session_of w' "u1" = Some approved_session /\
    lastActivity approved_session = 1016 /\
    clock (busy_world obliging_env) = 6016 /\
    clock w' = 6019.
Proof.
  exists (snd (perform obliging_env u1_transfer (busy_world obliging_env))).
  repeat apply conj; vm_compute; reflexivity.
Qed.

(** C6 (amended): a successful completion of an operation routed through a
    session ([sendTransaction], [signMessage], [signTypedData],
    [callContract], [readContract], [estimateGas]) changes no field of any
    session, [lastActivity] included, and changes neither the registry nor
    the store; the session it went through was valid and is found unchanged
    afterwards. *)
Theorem successful_operation_leaves_sessions_unchanged env w op response w' :
  perform env op w = (Resolved response, w') ->
  success response = true ->
  heap w' = heap w /\
  userSessions w' = userSessions w /\
  db_sessions w' = db_sessions w /\
  session_of w' (operation_user op) = session_of w (operation_user op).
Proof.
  intros Hrun Hok.
  pose proof (operation_frame env op (session_state w) w eq_refl) as H.
  rewrite Hrun in H. specialize (H Hok).
  unfold session_state in H. injection H as Hh Hr Hd.
  repeat split; try assumption.
  unfold session_of. rewrite Hh, Hr. reflexivity.
Qed.

Lemma successful_operation_leaves_sessions_unchanged_witness :
  let w := busy_world obliging_env in
  let w' := snd (perform obliging_env u1_transfer w) in
  fst (perform obliging_env u1_transfer w) =
    Resolved (mkResponse true (Some (hash (JStr "0xfeed"))) None) /\
  heap w' = heap w /\
  userSessions w' = userSessions w /\
  db_sessions w' = db_sessions w /\
  session_of w' "u1" = session_of w "u1".
Proof.
  intros w w'. split; [vm_compute; reflexivity|].
  apply (successful_operation_leaves_sessions_unchanged obliging_env w
           u1_transfer (mkResponse true (Some (hash (JStr "0xfeed"))) None) w');
    vm_compute; reflexivity.
Defined.

(** ** C1: [connect] on a user who already has a session *)


















(** ** C2: [disconnect] and the remote disconnect *)




(** ** C7: [destroy] *)

(** What one [disconnect] does to the rest of the state. *)
Lemma disconnect_effects env user w :
  exists mid,
    trace (snd (disconnect env user w)) = (trace w ++ mid)%list /\
    Forall (fun e => is_session_teardown e = true) mid /\
    timers (snd (disconnect env user w)) = timers w /\
    heap (snd (disconnect env user w)) = heap w /\
    cleanupInterval (snd (disconnect env user w)) = cleanupInterval w /\
    forall e, fst (disconnect env user w) <> Rejected e.
Proof.
  unfold disconnect, try_catch, bind, gets, deref, tick, effect, modify,
    db_deleteSession. cbv beta.
  destruct (JsMap.get user (userSessions w)) as [r|]; simpl.
  2: { exists []. rewrite app_nil_r. repeat split; [constructor | discriminate]. }
  destruct (heap w !! r) as [s|]; simpl.
  2: { exists []. rewrite app_nil_r. repeat split; [constructor | discriminate]. }
  destruct (truthy (topic s)); simpl.
  - destruct (client_disconnect env _ _ _) as [d [[]|e]|]; simpl.
    + eexists [_; _]. rewrite <- app_assoc. simpl.
      repeat split; [repeat constructor | discriminate].
    + eexists [_]. repeat split; [repeat constructor | discriminate].
    + eexists [_]. repeat split; [repeat constructor | discriminate].
  - eexists [_]. repeat split; [repeat constructor | discriminate].
Qed.

Lemma for_each_disconnect_cons env user users w :
  for_each (user :: users) (fun user => disconnect env user ;;; ret tt) w =
    match disconnect env user w with
    | (Resolved _, w1) =>
        for_each users (fun user => disconnect env user ;;; ret tt) w1
    | (Rejected e, w1) => (Rejected e, w1)
    | (Forever, w1) => (Forever, w1)
    end.
Proof.
  simpl. unfold bind. destruct (disconnect env user w) as [[b|e|] w1]; reflexivity.
Qed.

(** The loop of [destroy]. *)
Lemma disconnect_loop_effects env users : forall w,
  let run := for_each users (fun user => disconnect env user ;;; ret tt) w in
  exists mid,
    trace (snd run) = (trace w ++ mid)%list /\
    Forall (fun e => is_session_teardown e = true) mid /\
    timers (snd run) = timers w /\
    heap (snd run) = heap w /\
    cleanupInterval (snd run) = cleanupInterval w /\
    forall e, fst run <> Rejected e.
Proof.
  induction users as [|user users IH]; intros w.
  - exists []. simpl. rewrite app_nil_r. repeat split; [constructor | discriminate].
  - destruct (disconnect_effects env user w)
      as (mid1 & Ht1 & Hok1 & Htm1 & Hh1 & Hci1 & Hnr1).
    cbv zeta. rewrite for_each_disconnect_cons.
    destruct (disconnect env user w) as [[b|e|] w1]; simpl in *.
    + destruct (IH w1) as (mid2 & Ht2 & Hok2 & Htm2 & Hh2 & Hci2 & Hnr2).
      exists (mid1 ++ mid2)%list. rewrite Ht2, Ht1, Htm2, Hh2, Hci2, app_assoc.
      repeat split; try assumption. apply Forall_app; auto.
    + exfalso. eapply Hnr1; reflexivity.
    + exists mid1. repeat split; try assumption. discriminate.
Qed.






(** ** C4: the failure of [createTimeout] *)

Lemma timer_delay_positive timeout : 1 <= timer_delay timeout.
Proof.
  unfold timer_delay.
  destruct (Z.ltb_spec timeout 1); simpl; [lia|].
  destruct (Z.ltb_spec 2147483647 timeout); lia.
Qed.






(** ** C5: the expiry sweeps *)

Section sweeps.
Context {V : Type}.
Implicit Types (m pre todo : JsMap.t V).




End sweeps.

Lemma with_db_sessions_twice a b w :
  with_db_sessions a (with_db_sessions b w) = with_db_sessions a w.
Proof. reflexivity. Qed.








(** ** The progress tracker in double arithmetic *)









Lemma loc_of_shr_record_of_loc m l :
  loc_of_shr_record (shr_record_of_loc m l) = l.
Proof. destruct l as [|[]]; reflexivity. Qed.




























Lemma Number_0 : Number 0 = S754_zero false.
Proof. reflexivity. Qed.









(** * Further properties *)

(** ** The public methods settle without throwing *)



(** ** What [isConnected] and [getSession] report *)

(** [isConnected(userId)] is true exactly when the registry holds a
    session for the user that is flagged active, has a non-empty topic and
    was last active at most 24 hours ago (an age of exactly 24 hours still
    counts); [getSession(userId)] returns that session in this case and
    [null] otherwise. *)
Theorem isConnected_reports_valid_session w user :
  well_formed w ->
  fst (isConnected user w) = Resolved (connected w user) /\
  fst (getSession user w) =
    Resolved (if connected w user then JsMap.get user (userSessions w)
              else None) /\
  (connected w user = true <->
   exists s, session_of w user = Some s /\ isActive s = true /\
             truthy (topic s) = true /\
             clock w - lastActivity s <= 24 * 60 * 60 * 1000).
Proof.
  intros Hwf. unfold isConnected, getSession, connected, session_of, bind, gets.
  cbv beta.
  destruct (JsMap.get user (userSessions w)) as [r|] eqn:Hget; simpl.
  - destruct (well_formed_lookup _ _ _ Hwf Hget) as [s Hs].
    rewrite Hs, (validateSession_spec _ _ _ Hs). simpl.
    split; [reflexivity|]. split.
    + destruct (valid_at (clock w) s); reflexivity.
    + split.
      * intros Hv. exists s. split; [reflexivity|]. apply valid_at_inv, Hv.
      * intros (s' & Heq & H1 & H2 & H3). injection Heq as <-.
        unfold valid_at. rewrite H1, H2. simpl.
        apply negb_true_iff, Z.ltb_ge. exact H3.
  - split; [reflexivity|]. split; [reflexivity|]. split; [discriminate|].
    intros (s & Hs & _). discriminate.
Qed.

Lemma isConnected_reports_valid_session_witness :
  fst (isConnected "u1" (approved_world obliging_env)) = Resolved true /\
  fst (isConnected "u1" (stale_world obliging_env)) = Resolved false.
Proof.
  split.
  - apply (proj1 (isConnected_reports_valid_session
                    (approved_world obliging_env) "u1"
                    (reachable_well_formed obliging_env any_call _
                       (reachable_approved obliging_env)))).
  - refine (proj1 (isConnected_reports_valid_session
                     (stale_world obliging_env) "u1" _)).
    split; vm_compute; repeat constructor;
      rewrite ?elem_of_cons, ?elem_of_nil; intuition discriminate.
Defined.

(** ** [createTimeout] when the operation settles first *)

Lemma race_won {A} env d (r : A + Thrown) timeout rejection w :
  d < timer_delay timeout ->
  race env (Settles d r) timeout rejection w = await (Settles d r) w.
Proof.
  intros Hd. unfold race. pose proof (timer_delay_positive timeout).
  destruct (Z.ltb_spec (Z.max 0 d) (timer_delay timeout)); [reflexivity | lia].
Qed.

(** When the operation settles before the deadline, [createTimeout]
    settles as the operation does, with its value or its error; the timer
    it armed is cleared and no longer tracked ([isTimedOut] is false for
    the key), the timers of other keys and the sessions are as before. *)
Theorem createTimeout_settles_with_operation {A} env w operation d
        (r : A + Thrown) kind :
  let timeout := timeout_of (timeouts w) kind in
  d < timer_delay timeout ->
  let w' := snd (createTimeout env operation (Settles d r) kind w) in
  fst (createTimeout env operation (Settles d r) kind w) =
    match r with
    | inl a => Resolved a
    | inr e => Rejected e
    end /\
  isTimedOut operation w' = (Resolved false, w') /\
  (forall other, other <> operation ->
     JsMap.get other (timers w') = JsMap.get other (timers w)) /\
  trace w' =
    (trace w ++ [SetTimeout operation timeout; ClearTimeout operation])%list /\
  clock w' = clock w + Z.max 0 d /\
  session_state w' = session_state w.
Proof.
  intros timeout Hd w'. unfold w'. clear w'.
  unfold isTimedOut, JsMap.has.
  unfold createTimeout, finally, getTimeout, arm_timer, bind, gets, effect,
    modify. cbv beta iota. fold timeout.
  rewrite (race_won env d r timeout _ _ Hd). unfold await, clearTimer_.
  destruct r as [a|e];
    cbn [fst snd timers with_timers with_clock with_trace clock trace];
    rewrite get_set_eq;
    cbn [fst snd timers with_timers with_clock with_trace clock trace];
    rewrite get_delete_eq, <- app_assoc;
    (repeat apply conj; try reflexivity;
     intros other Hother; rewrite get_delete_ne, get_set_ne by assumption;
     reflexivity).
Qed.

Lemma createTimeout_settles_with_operation_witness :
  let run :=
    createTimeout obliging_env "sign-u1" (Settles 40 (inl (JStr "0xsig")))
                  signing fresh_world in
  fst run = Resolved (JStr "0xsig") /\
  isTimedOut "sign-u1" (snd run) = (Resolved false, snd run) /\
  clock (snd run) = 1040.
Proof.
  intros run.
  pose proof (createTimeout_settles_with_operation obliging_env fresh_world
                "sign-u1" 40 (inl (JStr "0xsig")) signing) as H.
  cbv zeta in H. destruct H as (H1 & H2 & _ & _ & H5 & _); [vm_compute; reflexivity|].
  split; [exact H1|]. split; [exact H2 | exact H5].
Defined.

(** ** [clearAllTimers] and [clearTimer] *)

Lemma for_each_clear_timers operations : forall w,
  for_each operations (fun operation =>
    effect (ClearTimeout operation) ;;;
    modify (fun w => with_timers (JsMap.delete operation (timers w)) w)) w =
  (Resolved tt,
   with_timers
     (fold_left (fun m operation => JsMap.delete operation m) operations
                (timers w))
     (with_trace (trace w ++ map ClearTimeout operations) w)).
Proof.
  induction operations as [|operation operations IH]; intros w.
  - simpl. rewrite app_nil_r. destruct w; reflexivity.
  - cbn [for_each]. unfold bind at 1. unfold bind at 1.
    unfold effect at 1, modify at 1 2. cbv beta iota. rewrite IH.
    cbn [fold_left map timers trace with_timers with_trace].
    rewrite <- app_assoc. reflexivity.
Qed.

Lemma delete_keys_subset {V} (ks : list string) : forall m : JsMap.t V,
  (forall k, In k (JsMap.keys m) -> In k ks) ->
  fold_left (fun m k => JsMap.delete k m) ks m = [].
Proof.
  induction ks as [|k ks IH]; intros m Hsub.
  - destruct m as [|[k v] m]; [reflexivity|]. exfalso. apply (Hsub k). simpl. auto.
  - simpl. apply IH. intros k' Hk'. apply keys_delete in Hk' as [Hne Hin].
    destruct (Hsub k' Hin) as [->|]; [congruence | assumption].
Qed.

(** [clearAllTimers] clears the timer of every tracked key, in the order
    in which the keys were tracked, and tracks none afterwards;
    [clearTimer] of a key that is not tracked does nothing. *)
Theorem clearAllTimers_clears_every_timer w :
  let w' := snd (clearAllTimers w) in
  fst (clearAllTimers w) = Resolved tt /\
  timers w' = [] /\
  trace w' = (trace w ++ map ClearTimeout (JsMap.keys (timers w)))%list /\
  session_state w' = session_state w /\
  (forall operation, isTimedOut operation w' = (Resolved false, w')) /\
  (forall operation,
     JsMap.get operation (timers w) = None ->
     clearTimer operation w = (Resolved tt, w)).
Proof.
  cbv zeta.
  assert (Hrun : clearAllTimers w =
    (Resolved tt,
     with_timers [] (with_trace
       (trace w ++ map ClearTimeout (JsMap.keys (timers w))) w))).
  { unfold clearAllTimers, bind, gets. cbv beta iota.
    rewrite for_each_clear_timers, delete_keys_subset by auto. reflexivity. }
  rewrite Hrun. cbn [fst snd timers trace with_timers with_trace].
  split; [reflexivity|]. split; [reflexivity|]. split; [reflexivity|].
  split; [reflexivity|]. split; [intros operation; reflexivity|].
  intros operation Hnone. unfold clearTimer, modify, clearTimer_.
  rewrite Hnone. reflexivity.
Qed.

(** ** The operations of the facade, for a connected user *)

(** The guard of the operations lets a valid session through, unchanged. *)
Lemma connected_session_valid w user s :
  session_of w user = Some s -> valid_at (clock w) s = true ->
  connected_session user w = (Resolved s, w).
Proof.
  unfold session_of. intros Hs Hv.
  destruct (JsMap.get user (userSessions w)) as [r|] eqn:Hget; simpl in Hs;
    [|discriminate].
  unfold connected_session, getSession, bind, gets. cbv beta. rewrite Hget.
  rewrite (validateSession_spec _ _ _ Hs), Hv.
  destruct (valid_at_inv _ _ Hv) as (H1 & H2 & H3).
  apply Z.ltb_ge in H3. rewrite H1, H2, H3.
  cbv beta iota delta [andb deref bind ret]. rewrite Hs.
  cbv beta iota. rewrite H2. reflexivity.
Qed.

Lemma network_rpc w c t chain method params :
  network (with_trace (trace w ++ [RpcRequest c t chain method params]) w) =
  (network w ++ [RpcRequest c t chain method params])%list.
Proof. unfold network. simpl. rewrite filter_app. reflexivity. Qed.

(** [sendTransaction] for a connected user sends exactly one request to
    the wallet, [eth_sendTransaction] on the topic of the session and on
    the chain [eip155:<chainId>] ([eip155:1] when the request gives no
    chain id, or 0).  It resolves with the wallet's answer as [hash] when
    the wallet answers, with [{success: false, error}] carrying the
    message of the wallet's error when the wallet refuses, and it does not
    settle while the wallet does not. *)
Theorem sendTransaction_relays_to_wallet env w request s :
  session_of w (tx_userId request) = Some s ->
  valid_at (clock w) s = true ->
  let client := wcClient s in
  let t := default "" (topic s) in
  let chain := "eip155:" +:+ pretty (or_one (tx_chainId request)) in
  let params :=
    JList [JObj [("to", JStr (tx_to request));
                 ("data", opt JStr (tx_data request));
                 ("value", opt JNum (tx_value request));
                 ("gas", opt JNum (tx_gas request));
                 ("maxFeePerGas", opt JNum (tx_maxFeePerGas request));
                 ("maxPriorityFeePerGas",
                  opt JNum (tx_maxPriorityFeePerGas request));
                 ("nonce", opt JNum (tx_nonce request))]] in
  let w' := snd (sendTransaction env request w) in
  network w' =
    (network w ++ [RpcRequest client t chain "eth_sendTransaction" params])%list /\
  fst (sendTransaction env request w) =
    match client_request env (length (trace w)) client t chain
                         "eth_sendTransaction" params with
    | Settles _ (inl h) => Resolved (mkResponse true (Some (hash h)) None)
    | Settles _ (inr e) =>
        Resolved (mkResponse false None (Some (error_message e)))
    | Never => Forever
    end.
Proof.
  intros Hs Hv. cbv zeta beta iota.
  destruct (sendTransaction env request w) as [o w'] eqn:Hrun. revert Hrun.
  unfold sendTransaction, try_catch, bind at 1.
  rewrite (connected_session_valid _ _ _ Hs Hv). cbv beta iota zeta.
  unfold wc_request, bind, tick, gets, effect, modify, await. cbv beta iota.
  destruct (client_request env _ _ _ _ _ _) as [d [h|e]|];
    cbn [ret failure]; intros [= <- <-];
    cbn [fst snd]; unfold network; cbn [trace with_trace with_clock];
    rewrite ?filter_app; cbn [filter is_network];
    rewrite ?app_nil_r; split; reflexivity.
Qed.

Lemma sendTransaction_relays_to_wallet_witness :
  let w := busy_world obliging_env in
  network (snd (sendTransaction obliging_env
                  (mkTransactionRequest "u1" "0xabc" None (Some 5) None None
                                        None None None) w)) =
    (network w ++
     [RpcRequest 0%nat "t1" "eip155:1" "eth_sendTransaction"
        (JList [JObj [("to", JStr "0xabc"); ("data", JNull);
                      ("value", JNum 5); ("gas", JNull);
                      ("maxFeePerGas", JNull);
                      ("maxPriorityFeePerGas", JNull);
                      ("nonce", JNull)]])])%list.
Proof.
  intros w.
  refine (proj1 (sendTransaction_relays_to_wallet obliging_env w
           (mkTransactionRequest "u1" "0xabc" None (Some 5) None None
                                 None None None)
           approved_session _ _)); vm_compute; reflexivity.
Defined.



(** ** Failures before and after the request *)

(** When the ABI encoder throws, [callContract], [readContract] and
    [estimateGas] for a connected user send nothing to the wallet and
    resolve with [{success: false, error}]; the first two carry the
    message of the encoder's error. *)
Theorem encoding_failure_sends_nothing env w s e :
  valid_at (clock w) s = true ->
  (forall request,
     session_of w (cc_userId request) = Some s ->
     encodeFunctionData env (k_abi (cc_contract request))
       (cc_functionName request) (default [] (cc_args request)) = inr e ->
     fst (callContract env request w) =
       Resolved (mkResponse false None (Some (error_message e))) /\
     network (snd (callContract env request w)) = network w /\
     (exists response,
        fst (estimateGas env request w) = Resolved response /\
        success response = false) /\
     network (snd (estimateGas env request w)) = network w) /\
  (forall request,
     session_of w (rd_userId request) = Some s ->
     encodeFunctionData env (k_abi (rd_contract request))
       (rd_functionName request) (default [] (rd_args request)) = inr e ->
     fst (readContract env request w) =
       Resolved (mkResponse false None (Some (error_message e))) /\
     network (snd (readContract env request w)) = network w).
Proof.
  intros Hv. split; intros request Hs Henc.
  - assert (Hcall : callContract env request w =
      (Resolved (mkResponse false None (Some (error_message e))),
       with_trace (trace w ++ [Emit "transaction_response"
                                    (Some (cc_userId request))]) w)).
    { unfold callContract, try_catch, bind at 1.
      rewrite (connected_session_valid _ _ _ Hs Hv). cbv beta iota zeta.
      unfold bind at 1. rewrite Henc. reflexivity. }
    assert (Hgas : exists response,
      estimateGas env request w = (Resolved response, w) /\
      success response = false).
    { unfold estimateGas, try_catch, bind at 1.
      rewrite (connected_session_valid _ _ _ Hs Hv). cbv beta iota zeta.
      unfold bind at 1. rewrite Henc. cbn [call throw].
      destruct e; eexists; split; reflexivity. }
    rewrite Hcall. destruct Hgas as (response & -> & Hfalse).
    cbn [fst snd]. rewrite network_emit.
    repeat split. exists response. split; [reflexivity | exact Hfalse].
  - assert (Hread : readContract env request w =
      (Resolved (mkResponse false None (Some (error_message e))), w)).
    { unfold readContract, try_catch, bind at 1.
      rewrite (connected_session_valid _ _ _ Hs Hv). cbv beta iota zeta.
      unfold bind at 1. rewrite Henc. reflexivity. }
    rewrite Hread. split; reflexivity.
Qed.

Lemma encoding_failure_sends_nothing_witness :
  let request :=
    mkContractCallRequest "u1" (mkContractConfig "0xdef" JNull None)
      "transfer" None None None None None None in
  let w := busy_world obliging_env in
  fst (callContract failing_encoder_env request w) =
    Resolved (mkResponse false None (Some "unknown function")) /\
  network (snd (callContract failing_encoder_env request w)) = network w.
Proof.
  intros request w.
  destruct (encoding_failure_sends_nothing failing_encoder_env w
              approved_session (Error "unknown function"))
    as [H _]; [vm_compute; reflexivity|].
  destruct (H request) as (H1 & H2 & _); [vm_compute; reflexivity ..|].
  split; [exact H1 | exact H2].
Defined.



(** ** [connect] when it fails *)



(** Recording the new pending session cannot fail. *)
Lemma connect_record_run user client now w :
  (let* session := alloc (mkSession user client None None None
                                    false now now now) in
   modify (fun w =>
     with_userSessions (JsMap.set user session (userSessions w)) w) ;;;
   db_saveSession session) w =
  (Resolved tt,
   with_db_sessions (JsMap.set user (length (heap w)) (db_sessions w))
     (with_userSessions (JsMap.set user (length (heap w)) (userSessions w))
        (with_heap (heap w ++ [mkSession user client None None None
                                         false now now now]) w))).
Proof.
  unfold bind, alloc, modify, db_saveSession, bind, deref, modify.
  cbn [heap with_heap with_userSessions]. rewrite list_lookup_middle by reflexivity.
  reflexivity.
Qed.






(** ** [disconnect], again *)

(** [disconnect] of a user the registry does not know returns false and
    does nothing.  After a [disconnect] that returned true the user is in
    neither the registry nor the store, so that a second [disconnect]
    returns false and [isConnected] is false, both without any effect. *)
Theorem disconnect_is_idempotent env w user :
  (JsMap.get user (userSessions w) = None ->
   disconnect env user w = (Resolved false, w)) /\
  (fst (disconnect env user w) = Resolved true ->
   let w1 := snd (disconnect env user w) in
   JsMap.get user (userSessions w1) = None /\
   JsMap.get user (db_sessions w1) = None /\
   disconnect env user w1 = (Resolved false, w1) /\
   isConnected user w1 = (Resolved false, w1)).
Proof.
  assert (Hunknown : forall w0,
    JsMap.get user (userSessions w0) = None ->
    disconnect env user w0 = (Resolved false, w0)).
  { intros w0 Hnone. unfold disconnect, try_catch, bind, gets. cbv beta.
    rewrite Hnone. reflexivity. }
  split; [apply Hunknown|].
  intros Htrue. cbv zeta.
  assert (Hgone : JsMap.get user (userSessions (snd (disconnect env user w))) = None /\
                  JsMap.get user (db_sessions (snd (disconnect env user w))) = None).
  { revert Htrue.
    unfold disconnect, try_catch, bind, tick, gets, deref, effect, modify,
      db_deleteSession. cbv beta.
    destruct (JsMap.get user (userSessions w)) as [r|]; [|discriminate].
    destruct (heap w !! r) as [s|]; [|discriminate]. cbv beta iota.
    destruct (truthy (topic s)); cbv beta iota.
    - unfold await. destruct (client_disconnect env _ _ _) as [d [[]|e]|];
        cbn [fst snd]; try discriminate.
      intros _. cbn [userSessions db_sessions with_userSessions with_db_sessions
                     with_trace with_clock].
      split; apply get_delete_eq.
    - cbn [fst snd ret]. intros _.
      cbn [userSessions db_sessions with_userSessions with_db_sessions
           with_trace with_clock].
      split; apply get_delete_eq. }
  destruct Hgone as [Hr Hd].
  split; [exact Hr|]. split; [exact Hd|]. split; [apply Hunknown, Hr|].
  unfold isConnected, bind, gets. cbv beta. rewrite Hr. reflexivity.
Qed.

Lemma disconnect_is_idempotent_witness :
  let w1 := snd (disconnect obliging_env "u1" (approved_world obliging_env)) in
  JsMap.get "u1" (userSessions w1) = None /\
  disconnect obliging_env "u1" w1 = (Resolved false, w1).
Proof.
  intros w1.
  destruct (proj2 (disconnect_is_idempotent obliging_env
                     (approved_world obliging_env) "u1"))
    as (H1 & _ & H3 & _); [vm_compute; reflexivity|].
  split; [exact H1 | exact H3].
Defined.

(** ** [init] *)





(** ** [generateQRCode] *)



(** ** Sweeps of [validateSession] over the registry *)

Lemma only_deactivated_refl w : only_deactivated w w.
Proof. repeat split; auto. Qed.

Lemma valid_at_deactivated now s : valid_at now (set_isActive false s) = false.
Proof. reflexivity. Qed.

(** One [validateSession] in the course of a sweep that started in [w]. *)
Lemma validateSession_in_sweep w w0 r :
  only_deactivated w w0 -> (r < length (heap w))%nat ->
  exists w1,
    validateSession r w0 = (Resolved (is_valid w r), w1) /\
    only_deactivated w w1.
Proof.
  intros (Hu & Hd & Hc & Ht & Htm & Hheap) Hr.
  apply lookup_lt_is_Some_2 in Hr as [s Hs].
  unfold is_valid. rewrite Hs.
  destruct (Hheap r) as [Hsame | (s' & Hs' & Hinvalid & Hnow)].
  - rewrite Hs in Hsame. rewrite (validateSession_spec _ _ _ Hsame), Hc.
    eexists. split; [reflexivity|].
    destruct (isActive s && truthy (topic s) && (maxAge <? clock w - lastActivity s))
      eqn:Hexp; [|repeat split; auto].
    repeat split; auto. intros r'. cbn [heap with_heap].
    destruct (decide (r' = r)) as [->|Hne].
    + right. exists s. split; [exact Hs|]. split.
      * unfold valid_at. apply andb_prop in Hexp as [_ ->].
        rewrite andb_false_r. reflexivity.
      * destruct (Hheap r) as [H|(s1 & H1 & _ & H2)].
        -- rewrite list_lookup_alter_eq, H, Hs. reflexivity.
        -- rewrite list_lookup_alter_eq, Hsame. reflexivity.
    + rewrite list_lookup_alter_ne by congruence. apply Hheap.
  - rewrite Hs in Hs'. injection Hs' as <-.
    rewrite (validateSession_spec _ _ _ Hnow), valid_at_deactivated, Hinvalid.
    eexists. split; [reflexivity|]. cbn [isActive set_isActive andb].
    repeat split; auto.
Qed.

Lemma collect_valid_in_sweep w : forall sessions w0,
  only_deactivated w w0 ->
  Forall (fun r => (r < length (heap w))%nat) sessions ->
  exists w1,
    collect_valid sessions w0 =
      (Resolved (List.filter (is_valid w) sessions), w1) /\
    only_deactivated w w1.
Proof.
  induction sessions as [|r rest IH]; intros w0 Hw0 Hrefs.
  - exists w0. split; [reflexivity | exact Hw0].
  - apply Forall_cons in Hrefs as [Hr Hrest].
    destruct (validateSession_in_sweep w w0 r Hw0 Hr) as (w1 & Hv & Hw1).
    destruct (IH w1 Hw1 Hrest) as (w2 & Hc & Hw2).
    exists w2. split; [|exact Hw2].
    cbn [collect_valid List.filter]. unfold bind. rewrite Hv, Hc.
    destruct (is_valid w r); reflexivity.
Qed.

(** [getAllSessions] returns the sessions of the registry that are valid
    at the time of the call (active, with a topic, last active at most 24
    hours ago), in the order of the registry; it changes neither the
    registry nor the store, and the only change it makes to a session is
    to flag an invalid one inactive. *)
Theorem getAllSessions_returns_valid_sessions w :
  well_formed w ->
  fst (getAllSessions w) =
    Resolved (List.filter (is_valid w) (JsMap.values (userSessions w))) /\
  only_deactivated w (snd (getAllSessions w)).
Proof.
  intros Hwf. unfold getAllSessions, bind, gets. cbv beta.
  destruct (collect_valid_in_sweep w (JsMap.values (userSessions w)) w
              (only_deactivated_refl w) (wf_registry w Hwf)) as (w1 & -> & Hw1).
  split; [reflexivity | exact Hw1].
Qed.

Lemma getAllSessions_returns_valid_sessions_witness :
  fst (getAllSessions (approved_world obliging_env)) = Resolved [0%nat] /\
  fst (getAllSessions (stale_world obliging_env)) = Resolved [].
Proof.
  split.
  - apply (proj1 (getAllSessions_returns_valid_sessions
                    (approved_world obliging_env)
                    (reachable_well_formed obliging_env any_call _
                       (reachable_approved obliging_env)))).
  - refine (proj1 (getAllSessions_returns_valid_sessions
                     (stale_world obliging_env) _)).
    split; vm_compute; repeat constructor;
      rewrite ?elem_of_cons, ?elem_of_nil; intuition discriminate.
Defined.

(** ** [cleanupSessions] *)

Lemma collect_expired_in_sweep w : forall entries w0,
  only_deactivated w w0 ->
  Forall (fun r => (r < length (heap w))%nat) (JsMap.values entries) ->
  exists w1,
    collect_expired entries w0 =
      (Resolved (JsMap.keys
                   (List.filter (fun kv => negb (is_valid w (snd kv))) entries)),
       w1) /\
    only_deactivated w w1.
Proof.
  induction entries as [|[user r] rest IH]; intros w0 Hw0 Hrefs.
  - exists w0. split; [reflexivity | exact Hw0].
  - cbn [JsMap.values map snd] in Hrefs.
    apply Forall_cons in Hrefs as [Hr Hrest].
    destruct (validateSession_in_sweep w w0 r Hw0 Hr) as (w1 & Hv & Hw1).
    destruct (IH w1 Hw1 Hrest) as (w2 & Hc & Hw2).
    exists w2. split; [|exact Hw2].
    cbn [collect_expired List.filter snd]. unfold bind. rewrite Hv, Hc.
    destruct (is_valid w r); reflexivity.
Qed.

Lemma get_delete_None {V} (m : JsMap.t V) k k' :
  JsMap.get k m = None -> JsMap.get k (JsMap.delete k' m) = None.
Proof.
  intros Hnone. destruct (decide (k = k')) as [->|Hne].
  - apply get_delete_eq.
  - rewrite get_delete_ne by congruence. exact Hnone.
Qed.

(** What a [disconnect] of [other] does to the entries of [user]. *)
Lemma disconnect_other env other user w :
  let w' := snd (disconnect env other w) in
  heap w' = heap w /\
  (user <> other ->
   JsMap.get user (userSessions w') = JsMap.get user (userSessions w)) /\
  (JsMap.get user (userSessions w) = None ->
   JsMap.get user (userSessions w') = None) /\
  (JsMap.get user (db_sessions w) = None ->
   JsMap.get user (db_sessions w') = None).
Proof.
  cbv zeta.
  unfold disconnect, try_catch, bind, tick, gets, deref, effect, modify,
    db_deleteSession, await. cbv beta.
  destruct (JsMap.get other (userSessions w)) as [r|]; [|cbn; auto].
  destruct (heap w !! r) as [s|]; [|cbn; auto]. cbv beta iota.
  destruct (truthy (topic s)); cbv beta iota;
    [destruct (client_disconnect env _ _ _) as [d [[]|e]|]|];
    cbn [fst snd ret heap userSessions db_sessions with_userSessions
         with_db_sessions with_trace with_clock]; auto;
    (split; [reflexivity|]; split;
     [intros Hne; apply get_delete_ne; congruence|];
     split; apply get_delete_None).
Qed.

(** A [disconnect] that has nothing to ask of the relay, or whose relay
    obliges, removes the session. *)
Lemma disconnect_removes env user w r s :
  JsMap.get user (userSessions w) = Some r -> heap w !! r = Some s ->
  truthy (topic s) = false \/ relay_always_disconnects env ->
  exists w',
    disconnect env user w = (Resolved true, w') /\
    JsMap.get user (userSessions w') = None /\
    JsMap.get user (db_sessions w') = None.
Proof.
  intros Hget Hs Hok.
  unfold disconnect, try_catch, bind, tick, gets, deref, effect, modify,
    db_deleteSession, await. cbv beta.
  rewrite Hget, Hs. cbv beta iota.
  destruct (truthy (topic s)) eqn:Ht; cbv beta iota.
  - destruct Hok as [|Hrelay]; [discriminate|].
    destruct (Hrelay (length (trace w)) (wcClient s) (default "" (topic s)))
      as [d Hd]. cbn [trace with_trace]. rewrite Hd. cbv beta iota.
    eexists. split; [reflexivity|].
    cbn [userSessions db_sessions with_userSessions with_db_sessions
         with_trace with_clock]. split; apply get_delete_eq.
  - eexists. split; [reflexivity|].
    cbn [userSessions db_sessions with_userSessions with_db_sessions
         with_trace with_clock]. split; apply get_delete_eq.
Qed.

Lemma disconnect_loop_other env user : forall users w,
  ~ In user users ->
  let w' := snd (for_each users (fun user => disconnect env user ;;; ret tt) w) in
  heap w' = heap w /\
  JsMap.get user (userSessions w') = JsMap.get user (userSessions w).
Proof.
  induction users as [|other users IH]; intros w Hnotin; [split; reflexivity|].
  cbv zeta. rewrite for_each_disconnect_cons.
  destruct (disconnect_other env other user w) as (Hh & Hne & _).
  assert (user <> other) by (intros ->; apply Hnotin; left; reflexivity).
  destruct (disconnect env other w) as [[b|e|] w1]; cbn [snd] in *;
    [|split; auto..].
  destruct (IH w1) as [Hh' Hg']; [intros Hin; apply Hnotin; right; exact Hin|].
  cbv zeta in Hh', Hg'. rewrite Hh', Hg', Hh, Hne by assumption. auto.
Qed.

Lemma disconnect_loop_absent env user : forall users w,
  JsMap.get user (userSessions w) = None ->
  JsMap.get user (db_sessions w) = None ->
  let w' := snd (for_each users (fun user => disconnect env user ;;; ret tt) w) in
  JsMap.get user (userSessions w') = None /\
  JsMap.get user (db_sessions w') = None.
Proof.
  induction users as [|other users IH]; intros w Hr Hd; [split; assumption|].
  cbv zeta. rewrite for_each_disconnect_cons.
  destruct (disconnect_other env other user w) as (_ & _ & Hr' & Hd').
  destruct (disconnect env other w) as [[b|e|] w1]; cbn [snd] in *;
    [apply IH; auto | split; auto ..].
Qed.

Lemma disconnect_loop_removes env user r : forall users w wl,
  In user users ->
  JsMap.get user (userSessions w) = Some r ->
  (exists s, heap w !! r = Some s /\
             (truthy (topic s) = false \/ relay_always_disconnects env)) ->
  for_each users (fun user => disconnect env user ;;; ret tt) w
    = (Resolved tt, wl) ->
  JsMap.get user (userSessions wl) = None /\
  JsMap.get user (db_sessions wl) = None.
Proof.
  induction users as [|other users IH]; intros w wl Hin Hget Hs Hrun;
    [contradiction|].
  rewrite for_each_disconnect_cons in Hrun.
  destruct (decide (other = user)) as [->|Hne].
  - destruct Hs as (s & Hs & Hok).
    destruct (disconnect_removes env user w r s Hget Hs Hok) as (w1 & Hd & Hr1 & Hd1).
    rewrite Hd in Hrun.
    pose proof (disconnect_loop_absent env user users w1 Hr1 Hd1) as Habs.
    cbv zeta in Habs. rewrite Hrun in Habs. exact Habs.
  - destruct Hin as [|Hin]; [congruence|].
    destruct (disconnect_other env other user w) as (Hh & Hother & _).
    destruct (disconnect env other w) as [[b|e|] w1]; cbn [snd] in *;
      try discriminate.
    apply (IH w1 wl Hin); [rewrite Hother by congruence; exact Hget | | exact Hrun].
    rewrite Hh. exact Hs.
Qed.

(** With an obliging relay the loop resolves. *)
Lemma disconnect_loop_resolves env : relay_always_disconnects env ->
  forall users w,
    well_formed w ->
    exists wl,
      for_each users (fun user => disconnect env user ;;; ret tt) w
        = (Resolved tt, wl).
Proof.
  intros Hrelay. induction users as [|user users IH]; intros w Hwf;
    [eexists; reflexivity|].
  rewrite for_each_disconnect_cons.
  assert (Hinv : invariant (fun _ => True) w)
    by (split; [exact Hwf | apply Forall_forall; auto]).
  pose proof (preserves_disconnect env _ user w Hinv) as Hkeep.
  assert (Hstep : exists b w1, disconnect env user w = (Resolved b, w1)).
  { destruct (JsMap.get user (userSessions w)) as [r|] eqn:Hget.
    - destruct (well_formed_lookup _ _ _ Hwf Hget) as [s Hs].
      destruct (disconnect_removes env user w r s Hget Hs (or_intror Hrelay))
        as (w1 & Hd & _). eauto.
    - exists false, w. unfold disconnect, try_catch, bind, gets. cbv beta.
      rewrite Hget. reflexivity. }
  destruct Hstep as (b & w1 & Hd). rewrite Hd in Hkeep |- *.
  apply IH, Hkeep.
Qed.

Lemma get_In {V} (m : JsMap.t V) k v :
  NoDup (JsMap.keys m) -> In (k, v) m -> JsMap.get k m = Some v.
Proof.
  induction m as [|[k' v'] m IH]; intros Hnd Hin; [contradiction|].
  cbn [JsMap.keys map fst] in Hnd. apply NoDup_cons in Hnd as [Hnotin Hnd].
  simpl. destruct Hin as [[= -> ->]|Hin].
  - destruct (decide (k = k)); [reflexivity | congruence].
  - destruct (decide (k = k')) as [->|Hne]; [|auto].
    exfalso. apply Hnotin. rewrite list_elem_of_In.
    change (In (fst (k', v)) (map fst m)). apply in_map, Hin.
Qed.

Lemma In_get {V} (m : JsMap.t V) k v :
  JsMap.get k m = Some v -> In (k, v) m.
Proof.
  induction m as [|[k' v'] m IH]; simpl; [discriminate|].
  destruct (decide (k = k')) as [->|Hne]; [intros [= ->]; auto | auto].
Qed.

(** [cleanupSessions] removes what is not valid and keeps what is.  A
    session that is valid when the sweep starts is still registered,
    unchanged, when it ends.  A session that is not valid (pending
    sessions included, however recent) is gone from the registry and from
    the store once the sweep has resolved, provided it has no topic or
    the relay completes the protocol-level disconnects; with such a relay
    the sweep always resolves. *)
Theorem cleanupSessions_sweeps_invalid_sessions env w user s :
  well_formed w -> session_of w user = Some s ->
  let w' := snd (cleanupSessions env w) in
  (valid_at (clock w) s = true -> session_of w' user = Some s) /\
  (valid_at (clock w) s = false ->
   truthy (topic s) = false \/ relay_always_disconnects env ->
   fst (cleanupSessions env w) = Resolved tt ->
   JsMap.get user (userSessions w') = None /\
   JsMap.get user (db_sessions w') = None) /\
  (relay_always_disconnects env ->
   fst (cleanupSessions env w) = Resolved tt).
Proof.
  intros Hwf Hsession. cbv zeta.
  unfold session_of in Hsession.
  destruct (JsMap.get user (userSessions w)) as [r|] eqn:Hget;
    simpl in Hsession; [|discriminate].
  destruct (collect_expired_in_sweep w (userSessions w) w
              (only_deactivated_refl w) (wf_registry w Hwf))
    as (w1 & Hcollect & Hw1).
  set (expired := JsMap.keys
    (List.filter (fun kv => negb (is_valid w (snd kv))) (userSessions w))) in *.
  set (loop := for_each expired (fun user => disconnect env user ;;; ret tt) w1).
  assert (Hrun : cleanupSessions env w =
    match loop with
    | (Rejected _, wl) => (Resolved tt, wl)
    | r => r
    end).
  { unfold cleanupSessions, try_catch, bind at 1, gets at 1. cbv beta iota.
    unfold bind at 1. rewrite Hcollect. fold loop.
    destruct loop as [[[]|e|] wl]; reflexivity. }
  destruct (disconnect_loop_effects env expired w1) as (_ & _ & _ & _ & _ & _ & Hnr).
  cbv zeta in Hnr. fold loop in Hnr.
  assert (Hwf1 : well_formed w1).
  { assert (Hinv : invariant (fun _ => True) w)
      by (split; [exact Hwf | apply Forall_forall; auto]).
    pose proof (preserves_collect_expired _ _ any_session_property
                  (userSessions w) w Hinv) as Hp.
    rewrite Hcollect in Hp. apply Hp. }
  destruct Hw1 as (Hu1 & Hd1 & Hc1 & Ht1 & Htm1 & Hheap1).
  assert (Hexpired : In user expired <-> valid_at (clock w) s = false).
  { unfold expired, JsMap.keys. rewrite in_map_iff. split.
    - intros ([k r'] & Hk & Hin). simpl in Hk. subst k.
      apply filter_In in Hin as [Hin Hinvalid].
      rewrite (get_In _ _ _ (wf_registry_keys w Hwf) Hin) in Hget.
      injection Hget as ->. cbn [snd] in Hinvalid. unfold is_valid in Hinvalid.
      rewrite Hsession in Hinvalid. apply negb_true_iff, Hinvalid.
    - intros Hinvalid. exists (user, r). split; [reflexivity|].
      apply filter_In. split; [apply In_get, Hget|].
      cbn [snd]. unfold is_valid. rewrite Hsession, Hinvalid. reflexivity. }
  rewrite Hrun. split; [|split].
  - intros Hvalid.
    assert (Hnotin : ~ In user expired)
      by (rewrite Hexpired, Hvalid; discriminate).
    destruct (disconnect_loop_other env user expired w1 Hnotin) as [Hh Hg].
    cbv zeta in Hh, Hg. fold loop in Hh, Hg.
    assert (Hgoal : session_of (snd loop) user = Some s).
    { unfold session_of. rewrite Hg, Hu1, Hget. simpl. rewrite Hh.
      destruct (Hheap1 r) as [->|(s' & Hs' & Hinvalid & _)]; [exact Hsession|].
      congruence. }
    destruct loop as [[[]|e|] wl]; exact Hgoal.
  - intros Hinvalid Hok Hresolved.
    destruct loop as [[[]|e|] wl] eqn:Hloop; cbn [fst snd] in *;
      [|exfalso; eapply Hnr; reflexivity|discriminate].
    apply (disconnect_loop_removes env user r expired w1 wl);
      [apply Hexpired, Hinvalid | rewrite Hu1; exact Hget | | exact Hloop].
    destruct (Hheap1 r) as [Hsame|(s' & Hs' & _ & Hnow)].
    + exists s. split; [congruence | exact Hok].
    + rewrite Hsession in Hs'. injection Hs' as <-.
      exists (set_isActive false s). split; [exact Hnow | exact Hok].
  - intros Hrelay.
    destruct (disconnect_loop_resolves env Hrelay expired w1 Hwf1) as [wl Hl].
    unfold loop. rewrite Hl. reflexivity.
Qed.

Lemma cleanupSessions_sweeps_invalid_sessions_witness :
  let w := step obliging_env (elapse 1) (pending_world obliging_env) in
  session_of w "u1" = Some (mkSession "u1" 0%nat None None None false 1016 1016 1016) /\
  fst (cleanupSessions obliging_env w) = Resolved tt /\
  JsMap.get "u1" (userSessions (snd (cleanupSessions obliging_env w))) = None.
Proof.
  intros w.
  assert (Hwf : well_formed w).
  { apply (reachable_well_formed obliging_env any_call).
    apply reachable_step; [apply reachable_pending | exact Logic.I]. }
  destruct (cleanupSessions_sweeps_invalid_sessions obliging_env w "u1"
              (mkSession "u1" 0%nat None None None false 1016 1016 1016)
              Hwf eq_refl) as (_ & H2 & _).
  split; [reflexivity|]. split; [vm_compute; reflexivity|].
  apply H2; [reflexivity | left; reflexivity | vm_compute; reflexivity].
Defined.

(** ** The registry and the store stay consistent *)

Section JsMap_entries.
Context {V : Type}.
Implicit Types (m : JsMap.t V) (k : string) (v : V).

Lemma In_keys m k v : In (k, v) m -> In k (JsMap.keys m).
Proof. intros H. change k with (fst (k, v)). apply in_map, H. Qed.

Lemma In_set m k v k' v' :
  NoDup (JsMap.keys m) ->
  In (k', v') (JsMap.set k v m) ->
  (k' = k /\ v' = v) \/ (k' <> k /\ In (k', v') m).
Proof.
  induction m as [|[k0 v0] m IH]; intros Hnd; simpl.
  - intros [[= <- <-]|[]]. auto.
  - cbn [JsMap.keys map fst] in Hnd. apply NoDup_cons in Hnd as [Hnotin Hnd].
    rewrite list_elem_of_In in Hnotin.
    destruct (decide (k = k0)) as [->|Hne]; simpl.
    + intros [[= <- <-]|Hin]; [auto|]. right. split; [|auto].
      intros ->. apply Hnotin. eapply In_keys, Hin.
    + intros [[= <- <-]|Hin]; [right; split; [congruence | auto]|].
      destruct (IH Hnd Hin) as [|[? ?]]; auto.
Qed.

Lemma In_delete m k k' v' :
  In (k', v') (JsMap.delete k m) -> k' <> k /\ In (k', v') m.
Proof.
  induction m as [|[k0 v0] m IH]; simpl; [contradiction|].
  destruct (decide (k = k0)) as [->|Hne]; simpl.
  - intros Hin. destruct (IH Hin). auto.
  - intros [[= <- <-]|Hin]; [split; [congruence | auto]|].
    destruct (IH Hin). auto.
Qed.

Lemma set_same m k v : JsMap.get k m = Some v -> JsMap.set k v m = m.
Proof.
  induction m as [|[k0 v0] m IH]; simpl; [discriminate|].
  destruct (decide (k = k0)) as [->|Hne].
  - intros [= ->]. reflexivity.
  - intros H. rewrite (IH H). reflexivity.
Qed.
End JsMap_entries.

Lemma consistent_new customTimeouts interval now :
  consistent (new_World customTimeouts interval now).
Proof.
  split; [reflexivity|]. split; [constructor|]. split; intros; contradiction.
Qed.

(** Steps that leave the sessions alone and forget no client. *)
Lemma consistent_frame w w' :
  session_state w' = session_state w -> (nextClient w <= nextClient w')%nat ->
  consistent w -> consistent w'.
Proof.
  unfold session_state. intros [= Hh Hr Hd] Hn (H1 & H2 & H3 & H4).
  unfold consistent. rewrite Hh, Hr, Hd.
  split; [exact H1|]. split; [exact H2|]. split; [|exact H4].
  intros user r Hin. destruct (H3 user r Hin) as (s & Hs & Hu & Hc).
  exists s. repeat split; auto. lia.
Qed.

Lemma unused_client_frame c w w' :
  session_state w' = session_state w -> (nextClient w <= nextClient w')%nat ->
  unused_client c w -> unused_client c w'.
Proof.
  unfold session_state. intros [= Hh Hr Hd] Hn [H1 H2].
  unfold unused_client. rewrite Hh, Hr. split; [lia | exact H2].
Qed.

Lemma lookup_alter_inv (f : UserSession -> UserSession) r (h : list UserSession)
      i s' :
  alter f r h !! i = Some s' ->
  exists s, h !! i = Some s /\ ((i <> r /\ s' = s) \/ (i = r /\ s' = f s)).
Proof.
  destruct (decide (i = r)) as [->|Hne].
  - rewrite list_lookup_alter_eq. destruct (h !! r) as [s|]; simpl; [|discriminate].
    intros [= <-]. eauto.
  - rewrite list_lookup_alter_ne by congruence. eauto.
Qed.

(** Updates of a session object that keep its user and its client. *)
Lemma consistent_alter w r f :
  (forall s, userId (f s) = userId s /\ wcClient (f s) = wcClient s) ->
  consistent w -> consistent (with_heap (alter f r (heap w)) w).
Proof.
  intros Hf (H1 & H2 & H3 & H4).
  split; [exact H1|]. split; [exact H2|]. cbn [heap userSessions nextClient with_heap].
  split.
  - intros user r0 Hin. destruct (H3 user r0 Hin) as (s & Hs & Hu & Hc).
    destruct (decide (r0 = r)) as [->|Hne].
    + exists (f s). rewrite list_lookup_alter_eq, Hs.
      destruct (Hf s) as [-> ->]. auto.
    + exists s. rewrite list_lookup_alter_ne by congruence. auto.
  - intros user1 r1 s1 user2 r2 s2 Hin1 Hin2 Hs1 Hs2 Hc.
    apply lookup_alter_inv in Hs1 as (t1 & Ht1 & Hs1).
    apply lookup_alter_inv in Hs2 as (t2 & Ht2 & Hs2).
    apply (H4 user1 r1 t1 user2 r2 t2); auto.
    assert (wcClient s1 = wcClient t1)
      by (destruct Hs1 as [[_ ->]|[_ ->]]; [reflexivity | apply Hf]).
    assert (wcClient s2 = wcClient t2)
      by (destruct Hs2 as [[_ ->]|[_ ->]]; [reflexivity | apply Hf]).
    congruence.
Qed.

Lemma unused_client_alter c w r f :
  (forall s, wcClient (f s) = wcClient s) ->
  unused_client c w -> unused_client c (with_heap (alter f r (heap w)) w).
Proof.
  intros Hf [H1 H2]. split; [exact H1|].
  cbn [heap userSessions with_heap]. intros user r0 s Hin Hs.
  apply lookup_alter_inv in Hs as (t & Ht & Hs).
  pose proof (H2 user r0 t Hin Ht).
  destruct Hs as [[_ ->]|[_ ->]]; [assumption | rewrite Hf; assumption].
Qed.

(** Recording the pending session of a new client. *)
Lemma consistent_record w user c now :
  consistent w -> unused_client c w ->
  consistent
    (with_db_sessions (JsMap.set user (length (heap w)) (db_sessions w))
       (with_userSessions (JsMap.set user (length (heap w)) (userSessions w))
          (with_heap (heap w ++ [mkSession user c None None None
                                           false now now now]) w))).
Proof.
  intros (H1 & H2 & H3 & H4) [Hc Hfresh].
  assert (Hold : forall k r, In (k, r) (userSessions w) ->
    (heap w ++ [mkSession user c None None None false now now now]) !! r
      = heap w !! r).
  { intros k r Hin. destruct (H3 k r Hin) as (s & Hs & _).
    apply lookup_app_l. eapply lookup_lt_Some, Hs. }
  unfold consistent.
  cbn [heap userSessions db_sessions nextClient with_heap with_userSessions
       with_db_sessions].
  split; [rewrite H1; reflexivity|]. split; [apply NoDup_keys_set, H2|]. split.
  - intros k r Hin. apply (In_set _ _ _ _ _ H2) in Hin as [[-> ->]|[Hne Hin]].
    + eexists. rewrite list_lookup_middle by reflexivity. auto.
    + rewrite (Hold k r Hin). apply H3, Hin.
  - intros k1 r1 s1 k2 r2 s2 Hin1 Hin2 Hs1 Hs2 Heq.
    apply (In_set _ _ _ _ _ H2) in Hin1 as [[-> ->]|[Hne1 Hin1]];
      apply (In_set _ _ _ _ _ H2) in Hin2 as [[-> ->]|[Hne2 Hin2]];
      try reflexivity.
    + rewrite list_lookup_middle in Hs1 by reflexivity. injection Hs1 as <-.
      rewrite (Hold _ _ Hin2) in Hs2.
      pose proof (Hfresh _ _ _ Hin2 Hs2). simpl in Heq. lia.
    + rewrite list_lookup_middle in Hs2 by reflexivity. injection Hs2 as <-.
      rewrite (Hold _ _ Hin1) in Hs1.
      pose proof (Hfresh _ _ _ Hin1 Hs1). simpl in Heq. lia.
    + rewrite (Hold _ _ Hin1) in Hs1. rewrite (Hold _ _ Hin2) in Hs2.
      eapply H4; eauto.
Qed.

(** Removing a user from the registry and from the store. *)
Lemma consistent_remove w user :
  consistent w ->
  consistent
    (with_db_sessions (JsMap.delete user (db_sessions w))
       (with_userSessions (JsMap.delete user (userSessions w)) w)).
Proof.
  intros (H1 & H2 & H3 & H4). unfold consistent.
  cbn [heap userSessions db_sessions nextClient with_userSessions
       with_db_sessions].
  split; [rewrite H1; reflexivity|]. split; [apply NoDup_keys_delete, H2|]. split.
  - intros k r Hin. apply In_delete in Hin as [_ Hin]. apply H3, Hin.
  - intros k1 r1 s1 k2 r2 s2 Hin1 Hin2.
    apply In_delete in Hin1 as [_ Hin1]. apply In_delete in Hin2 as [_ Hin2].
    eapply H4; eauto.
Qed.

(** Giving a registered session a client of its own. *)
Lemma consistent_rebind w user r c :
  consistent w -> unused_client c w -> In (user, r) (userSessions w) ->
  consistent (with_heap (alter (set_wcClient c) r (heap w)) w).
Proof.
  intros (H1 & H2 & H3 & H4) [Hc Hfresh] Hin.
  split; [exact H1|]. split; [exact H2|].
  cbn [heap userSessions nextClient with_heap]. split.
  - intros k r0 Hin0. destruct (H3 k r0 Hin0) as (s & Hs & Hu & Hlt).
    destruct (decide (r0 = r)) as [->|Hne].
    + exists (set_wcClient c s). rewrite list_lookup_alter_eq, Hs. auto.
    + exists s. rewrite list_lookup_alter_ne by congruence. auto.
  - intros k1 r1 s1 k2 r2 s2 Hin1 Hin2 Hs1 Hs2 Heq.
    apply lookup_alter_inv in Hs1 as (t1 & Ht1 & Hs1).
    apply lookup_alter_inv in Hs2 as (t2 & Ht2 & Hs2).
    pose proof (Hfresh _ _ _ Hin1 Ht1) as Hlt1.
    pose proof (Hfresh _ _ _ Hin2 Ht2) as Hlt2.
    destruct (H3 _ _ Hin1) as (u1 & Hu1 & Hk1 & _).
    destruct (H3 _ _ Hin2) as (u2 & Hu2 & Hk2 & _).
    destruct Hs1 as [[Hne1 ->]|[-> ->]], Hs2 as [[Hne2 ->]|[-> ->]];
      simpl in Heq.
    + exact (H4 _ _ _ _ _ _ Hin1 Hin2 Ht1 Ht2 Heq).
    + lia.
    + lia.
    + congruence.
Qed.

Section calls_keep_consistent.
Context (env : Env).

Lemma createWalletConnectClient_cases user w :
  let run := createWalletConnectClient env user w in
  session_state (snd run) = session_state w /\
  match fst run with
  | Resolved c => c = nextClient w /\ nextClient (snd run) = S (nextClient w)
  | _ => nextClient (snd run) = nextClient w
  end.
Proof.
  cbv zeta. unfold createWalletConnectClient, try_catch.
  destruct (bool_decide (projectId env = "")); [split; reflexivity|].
  unfold bind, tick, gets, effect, modify, await. cbv beta iota.
  destruct (SignClient_init env _ _) as [d [[]|e]|]; repeat split.
Qed.

Lemma keeps_nextClient_generateQRCode uri :
  keeps nextClient (generateQRCode env uri).
Proof. intros v. unfold generateQRCode. preserve; untouched. Qed.

Lemma keeps_nextClient_wc_request s chainId method params :
  keeps nextClient (wc_request env s chainId method params).
Proof. intros v. unfold wc_request. preserve; untouched. Qed.

Lemma keeps_nextClient_createTimeout {A} operation (promise : Reply A) kind :
  keeps nextClient (createTimeout env operation promise kind).
Proof.
  intros v. unfold createTimeout, arm_timer. preserve.
  apply preserves_finally.
  - preserve; try untouched. intros w Hw. unfold race.
    destruct promise as [d [x|e]|]; simpl;
      repeat match goal with |- context [if ?b then _ else _] => destruct b end;
      simpl; exact Hw.
  - intros w <-. unfold clearTimer_.
    destruct (JsMap.get operation (timers w)); reflexivity.
Qed.

(** A predicate on the sessions and on the clients made so far survives
    a step that leaves both alone. *)
Lemma preserves_of_keeps {A} (P : World -> Prop) (m : M A) :
  (forall w w', session_state w' = session_state w ->
                nextClient w' = nextClient w -> P w -> P w') ->
  keeps session_state m -> keeps nextClient m -> preserves P m.
Proof.
  intros HP Hs Hn w Hw.
  specialize (Hs (session_state w) w eq_refl).
  specialize (Hn (nextClient w) w eq_refl).
  destruct (m w) as [[a| |] w']; eapply HP; eauto.
Qed.

Lemma consistent_same w w' :
  session_state w' = session_state w -> nextClient w' = nextClient w ->
  consistent w -> consistent w'.
Proof. intros Hs Hn. apply consistent_frame; [exact Hs | lia]. Qed.

Ltac steady :=
  first
    [ untouched
    | apply (preserves_of_keeps _ _ consistent_same);
      [ first [ apply keeps_sessions_generateQRCode
              | apply keeps_sessions_wc_request
              | apply keeps_sessions_createTimeout ]
      | first [ apply keeps_nextClient_generateQRCode
              | apply keeps_nextClient_wc_request
              | apply keeps_nextClient_createTimeout ] ] ].

Lemma consistent_assign r f :
  (forall s, userId (f s) = userId s /\ wcClient (f s) = wcClient s) ->
  preserves consistent (assign r f).
Proof.
  intros Hf. apply preserves_modify. intros w. apply consistent_alter, Hf.
Qed.

Lemma consistent_validateSession r : preserves consistent (validateSession r).
Proof.
  unfold validateSession. preserve.
  apply consistent_assign. intros; split; reflexivity.
Qed.

Lemma consistent_isConnected user : preserves consistent (isConnected user).
Proof. unfold isConnected. preserve. apply consistent_validateSession. Qed.

Lemma consistent_getSession user : preserves consistent (getSession user).
Proof. unfold getSession. preserve. apply consistent_validateSession. Qed.

Lemma consistent_collect_valid sessions :
  preserves consistent (collect_valid sessions).
Proof.
  induction sessions as [|r rest IH]; simpl; preserve;
    [apply consistent_validateSession | apply IH].
Qed.

Lemma consistent_collect_expired entries :
  preserves consistent (collect_expired entries).
Proof.
  induction entries as [|[user r] rest IH]; simpl; preserve;
    [apply consistent_validateSession | apply IH].
Qed.

Lemma consistent_clearTimer operation :
  preserves consistent (clearTimer operation).
Proof.
  apply preserves_modify. intros w. apply consistent_same.
  - apply keeps_sessions_clearTimer_.
  - unfold clearTimer_. destruct (JsMap.get operation (timers w)); reflexivity.
Qed.

Lemma consistent_on_session_connect client args :
  preserves consistent (on_session_connect client args).
Proof.
  unfold on_session_connect. preserve;
    try (apply consistent_assign; intros; split; reflexivity);
    try apply consistent_clearTimer; untouched.
Qed.

Lemma consistent_on_session_update args :
  preserves consistent (on_session_update args).
Proof.
  unfold on_session_update, findSessionByTopic. preserve;
    try (apply consistent_assign; intros; split; reflexivity); untouched.
Qed.

Lemma consistent_disconnect user : preserves consistent (disconnect env user).
Proof.
  intros w Hw.
  assert (H : consistent (snd (disconnect env user w))).
  { unfold disconnect, try_catch, bind, tick, gets, deref, effect, modify,
      db_deleteSession, await. cbv beta.
    destruct (JsMap.get user (userSessions w)) as [r|]; [|exact Hw].
    destruct (heap w !! r) as [s|]; [|exact Hw]. cbv beta iota.
    destruct (truthy (topic s)); cbv beta iota;
      [destruct (client_disconnect env _ _ _) as [d [[]|e]|]|];
      cbn [snd ret]; try exact Hw;
      exact (consistent_remove w user Hw). }
  destruct (disconnect env user w) as [[b| |] w']; exact H.
Qed.

(** The part of [connect] that records the pending session, as one step. *)
Lemma triple_connect_record (X P P' : World -> Prop) user client now
      (k : M ConnectionResponse) Q :
  (forall w, P w ->
     P' (with_db_sessions (JsMap.set user (length (heap w)) (db_sessions w))
           (with_userSessions
              (JsMap.set user (length (heap w)) (userSessions w))
              (with_heap (heap w ++ [mkSession user client None None None
                                               false now now now]) w)))) ->
  triple X P' k Q ->
  triple X P
    (let* session := alloc (mkSession user client None None None
                                      false now now now) in
     modify (fun w =>
       with_userSessions (JsMap.set user session (userSessions w)) w) ;;;
     db_saveSession session ;;; k) Q.
Proof.
  intros HP Hk w Hw.
  pose proof (connect_record_run user client now w) as Hrec.
  unfold bind in Hrec |- *.
  destruct (alloc _ w) as [[r| |] w1]; try discriminate.
  destruct (modify _ w1) as [[[]| |] w2]; try discriminate.
  rewrite Hrec. apply Hk, HP, Hw.
Qed.

Lemma consistent_connect request : preserves consistent (connect env request).
Proof.
  unfold connect. apply preserves_try_catch; [|intros; preserve; untouched].
  apply preserves_bind; [apply preserves_gets|]. intros existingSession.
  apply preserves_bind.
  { destruct existingSession; [apply consistent_validateSession | apply preserves_ret]. }
  intros valid.
  pose (P := fun (c : ClientId) (w : World) => consistent w /\ unused_client c w).
  assert (HP : forall c w w', session_state w' = session_state w ->
                 nextClient w' = nextClient w -> P c w -> P c w').
  { intros c w w' Hs Hn [H1 H2]. split.
    - eapply consistent_same; eauto.
    - eapply unused_client_frame; eauto. lia. }
  assert (Hnew : preserves consistent
    (let* wcClient := createWalletConnectClient env (cr_userId request) in
     let methods := default default_methods (cr_methods request) in
     let chains :=
       match cr_chainId request with
       | Some c => if c =? 0 then ["eip155:1"] else ["eip155:" +:+ pretty c]
       | None => ["eip155:1"]
       end in
     let events :=
       default ["chainChanged"; "accountsChanged"] (cr_events request) in
     let* n := tick in
     effect (Handshake wcClient methods chains events) ;;;
     let* uri := await (client_connect env n wcClient methods chains events) in
     if invalid_uri uri then
       throw (WalletConnectSDKError
                "Invalid connection URI received from WalletConnect"
                "UNKNOWN_ERROR")
     else
       let* qrCode := generateQRCode env uri in
       let deepLinks := generateDeepLinks env (default "" uri) in
       let* now := Date_now in
       let* session :=
         alloc (mkSession (cr_userId request) wcClient None None None
                          false now now now) in
       modify (fun w =>
         with_userSessions
           (JsMap.set (cr_userId request) session (userSessions w)) w) ;;;
       db_saveSession session ;;;
       effect (Emit "session_connect" (Some (cr_userId request))) ;;;
       let* timeout := getTimeout connection in
       ret (mkConnectionResponse true uri (Some qrCode) uri None
              (Some deepLinks) (Some timeout) (Some timeout)))).
  { unfold preserves. eapply triple_bind with (Q := P).
    { intros w Hw.
      destruct (createWalletConnectClient_cases (cr_userId request) w) as [Hs Hn].
      cbv zeta in Hs, Hn.
      destruct (createWalletConnectClient env (cr_userId request) w)
        as [[c| |] w']; cbn [fst snd] in Hs, Hn;
        try (eapply consistent_same; eauto).
      destruct Hn as [-> Hn]. split.
      - eapply consistent_frame; eauto. lia.
      - split; [lia|]. unfold session_state in Hs. injection Hs as Hh Hr _.
        rewrite Hh, Hr. intros user r s Hin Hsome.
        destruct Hw as (_ & _ & H3 & _).
        destruct (H3 user r Hin) as (s' & Hs' & _ & Hlt). congruence. }
    intros wcClient. cbv zeta.
    assert (Hstep : forall {A} (m : M A) (k : A -> M ConnectionResponse),
      preserves (P wcClient) m ->
      (forall a, triple consistent (P wcClient) (k a) (fun _ => consistent)) ->
      triple consistent (P wcClient) (bind m k) (fun _ => consistent)).
    { intros A m k Hm Hk. eapply triple_bind; [|exact Hk].
      apply triple_of_preserves; [exact Hm | unfold P; tauto | auto]. }
    apply Hstep; [apply preserves_gets|]. intros n.
    apply Hstep; [untouched|]. intros _.
    apply Hstep; [untouched|]. intros uri.
    destruct (invalid_uri uri); [apply triple_throw; unfold P; tauto|].
    apply Hstep.
    { apply (preserves_of_keeps _ _ (HP wcClient));
        [apply keeps_sessions_generateQRCode | apply keeps_nextClient_generateQRCode]. }
    intros qrCode.
    apply Hstep; [apply preserves_gets|]. intros now.
    apply (triple_connect_record _ _ consistent).
    - intros w [Hc Hu]. apply consistent_record; assumption.
    - change (preserves consistent
        (effect (Emit "session_connect" (Some (cr_userId request))) ;;;
         let* timeout := getTimeout connection in
         ret (mkConnectionResponse true uri (Some qrCode) uri None
                (Some (generateDeepLinks env (default "" uri)))
                (Some timeout) (Some timeout)))).
      preserve; untouched. }
  destruct existingSession as [r|], valid; try exact Hnew.
  preserve.
Qed.

Lemma consistent_cleanupSessions : preserves consistent (cleanupSessions env).
Proof.
  unfold cleanupSessions. preserve.
  - apply consistent_collect_expired.
  - apply consistent_disconnect.
Qed.

Lemma consistent_destroy : preserves consistent (destroy env).
Proof.
  unfold destroy, db_disconnect. preserve; try untouched.
  all: apply consistent_disconnect.
Qed.

Lemma consistent_restoreSessions : preserves consistent (restoreSessions env).
Proof.
  unfold restoreSessions, db_getAllSessions.
  apply preserves_try_catch; [|intros; apply preserves_ret].
  unfold preserves.
  eapply triple_bind with
    (Q := fun sessions w =>
            consistent w /\ sessions = JsMap.values (userSessions w)).
  { apply triple_gets. intros w Hw. split; [exact Hw|].
    destruct Hw as [-> _]. reflexivity. }
  intros sessions.
  pose (I := fun w : World =>
    consistent w /\ sessions = JsMap.values (userSessions w)).
  apply triple_weaken with (P' := I) (Q' := fun _ => I);
    [|auto|unfold I; tauto].
  assert (HI : forall w, I w -> consistent w) by (unfold I; tauto).
  assert (Hexc : triple consistent I
            (for_each sessions (fun session =>
               let* valid := validateSession session in
               if valid then
                 let* s := deref session in
                 let* wcClient := createWalletConnectClient env (userId s) in
                 assign session (set_wcClient wcClient) ;;;
                 assign session (set_isActive true) ;;;
                 modify (fun w =>
                   with_userSessions
                     (JsMap.set (userId s) session (userSessions w)) w)
               else ret tt))
            (fun _ => I)); [|exact Hexc].
  assert (Hlift : forall {A} (m : M A), triple I I m (fun _ => I) ->
                                        triple consistent I m (fun _ => I)).
  { intros A m Hm w Hw. specialize (Hm w Hw).
    destruct (m w) as [[a| |] w']; auto. }
  apply Hlift. apply triple_for_each. intros session Hin.
  eapply triple_bind with (Q := fun _ => I).
  { intros w [Hw Hs].
    pose proof (consistent_validateSession session w Hw) as Hc.
    assert (Hreg : userSessions (snd (validateSession session w)) = userSessions w).
    { unfold validateSession, bind, deref, Date_now, gets, assign, modify.
      destruct (heap w !! session) as [s|]; [|reflexivity]. cbv beta iota.
      destruct (isActive s); [|reflexivity].
      destruct (truthy (topic s)); [|reflexivity]. cbn [negb].
      destruct (maxAge <? _); reflexivity. }
    destruct (validateSession session w) as [[b| |] w']; cbn [snd] in Hreg;
      (split; [exact Hc | rewrite Hreg; exact Hs]). }
  intros [|]; [|apply triple_ret; auto].
  pose (P2 := fun (s : UserSession) (w : World) =>
    I w /\ In (userId s, session) (userSessions w)).
  eapply triple_bind with (Q := P2).
  { apply triple_deref; [|auto]. intros w s [Hw Hs] Hsome.
    split; [split; assumption|].
    assert (Hv : In session (JsMap.values (userSessions w)))
      by (rewrite <- Hs; exact Hin).
    unfold JsMap.values in Hv. apply in_map_iff in Hv as ([k r] & Hk & Hkr).
    simpl in Hk. subst r.
    destruct Hw as (_ & _ & H3 & _).
    destruct (H3 k session Hkr) as (s' & Hs' & Hu & _).
    replace (userId s) with k by congruence. exact Hkr. }
  intros s.
  eapply triple_bind with
    (Q := fun c w => P2 s w /\ unused_client c w).
  { intros w [[Hw Hs] Hkr].
    destruct (createWalletConnectClient_cases (userId s) w) as [Hst Hn].
    cbv zeta in Hst, Hn.
    destruct (createWalletConnectClient env (userId s) w) as [[c| |] w'];
      cbn [fst snd] in Hst, Hn;
      unfold session_state in Hst; injection Hst as Hh Hr Hd.
    - destruct Hn as [-> Hn]. split; [split; [split|]|].
      + eapply consistent_frame; [| |exact Hw];
          [unfold session_state; congruence | lia].
      + rewrite Hr. exact Hs.
      + rewrite Hr. exact Hkr.
      + split; [lia|]. rewrite Hh, Hr. intros user r s0 Hin0 Hsome.
        destruct Hw as (_ & _ & H3 & _).
        destruct (H3 user r Hin0) as (s' & Hs' & _ & Hlt). congruence.
    - split; [|rewrite Hr; exact Hs].
      eapply consistent_same; [| |exact Hw];
        [unfold session_state; congruence | exact Hn].
    - split; [|rewrite Hr; exact Hs].
      eapply consistent_same; [| |exact Hw];
        [unfold session_state; congruence | exact Hn]. }
  intros wcClient.
  eapply triple_bind with (Q := fun _ => P2 s).
  { apply triple_modify. intros w [[[Hw Hs] Hkr] Hu].
    split; [split|]; [|exact Hs|exact Hkr].
    eapply consistent_rebind; eauto. }
  intros _.
  eapply triple_bind with (Q := fun _ => P2 s).
  { apply triple_modify. intros w [[Hw Hs] Hkr].
    split; [split|]; [|exact Hs|exact Hkr].
    apply consistent_alter; [intros; split; reflexivity | exact Hw]. }
  intros _. apply triple_modify. intros w [[Hw Hs] Hkr].
  assert (Hsame : JsMap.set (userId s) session (userSessions w) = userSessions w).
  { apply set_same, get_In; [apply Hw | exact Hkr]. }
  rewrite Hsame. split; [|exact Hs].
  eapply consistent_same; [| |exact Hw]; reflexivity.
Qed.

Lemma consistent_init : preserves consistent (init env).
Proof.
  unfold init, db_connect. preserve; try untouched.
  apply consistent_restoreSessions.
Qed.

Lemma consistent_connected_session user :
  preserves consistent (connected_session user).
Proof. unfold connected_session. preserve. apply consistent_getSession. Qed.

Lemma consistent_getAccounts user : preserves consistent (getAccounts env user).
Proof.
  unfold getAccounts. preserve; try untouched. apply consistent_getSession.
Qed.

Lemma consistent_perform op : preserves consistent (perform env op).
Proof.
  destruct op; simpl;
    [ unfold sendTransaction | unfold signMessage | unfold signTypedData
    | unfold callContract | unfold readContract | unfold estimateGas ];
    unfold waitForGasEstimation, waitForUserInteraction;
    preserve; try steady; apply consistent_connected_session.
Qed.

Lemma consistent_run c : preserves consistent (run env c).
Proof.
  destruct c; simpl; preserve.
  - apply consistent_init.
  - apply consistent_connect.
  - apply consistent_disconnect.
  - apply consistent_isConnected.
  - apply consistent_getSession.
  - unfold getAllSessions. preserve. apply consistent_collect_valid.
  - apply consistent_getAccounts.
  - apply consistent_perform.
  - apply consistent_validateSession.
  - apply consistent_cleanupSessions.
  - apply consistent_destroy.
  - unfold updateTimeouts. untouched.
  - apply consistent_clearTimer.
  - unfold clearAllTimers. preserve; untouched.
  - apply consistent_on_session_connect.
  - unfold on_session_event, findSessionByTopic. preserve; untouched.
  - apply consistent_on_session_update.
  - unfold on_session_delete, findSessionByTopic. preserve; untouched.
  - untouched.
Qed.
End calls_keep_consistent.

Lemma reachable_consistent env admissible w :
  reachable env admissible w -> consistent w.
Proof.
  induction 1 as [| w c Hr IH Hc]; [apply consistent_new|].
  unfold step. pose proof (consistent_run env c w IH) as Hp.
  destruct (run env c w) as [[[]| |] w']; exact Hp.
Qed.



(** ** The approval of a pending session *)

(** The session that the approval handler picks for a client. *)
Lemma find_session_of_client w user r s :
  consistent w ->
  JsMap.get user (userSessions w) = Some r -> heap w !! r = Some s ->
  find_session (fun s0 => bool_decide (wcClient s0 = wcClient s)) w = Some r.
Proof.
  intros (H1 & H2 & H3 & H4) Hget Hs. unfold find_session.
  destruct (List.find _ _) as [r'|] eqn:Hfind.
  - apply List.find_some in Hfind as [Hin Hp].
    destruct (heap w !! r') as [s'|] eqn:Hs'; [|discriminate].
    apply bool_decide_eq_true in Hp.
    unfold JsMap.values in Hin. apply in_map_iff in Hin as ([k r0] & Hk & Hkr).
    simpl in Hk. subst r0.
    assert (k = user)
      by (apply (H4 k r' s' user r s); auto using In_get).
    subst k. rewrite (get_In _ _ _ H2 Hkr) in Hget. exact Hget.
  - exfalso.
    pose proof (List.find_none _ _ Hfind r (get_Some_values _ _ _ Hget)) as Hp.
    cbv beta in Hp. rewrite Hs in Hp.
    apply bool_decide_eq_false in Hp. congruence.
Qed.

Lemma clearTimer__heap operation w : heap (clearTimer_ operation w) = heap w.
Proof. unfold clearTimer_. destruct (JsMap.get operation (timers w)); reflexivity. Qed.

Lemma clearTimer__userSessions operation w :
  userSessions (clearTimer_ operation w) = userSessions w.
Proof. unfold clearTimer_. destruct (JsMap.get operation (timers w)); reflexivity. Qed.

Lemma clearTimer__clock operation w : clock (clearTimer_ operation w) = clock w.
Proof. unfold clearTimer_. destruct (JsMap.get operation (timers w)); reflexivity. Qed.

(** In a state that the instance has reached, the approval event of the
    client of a registered session updates that session and no other:
    the session takes the topic and the parameters of the event, the
    third component of the first approved account as its address (it
    keeps its address when the event names no account), the time of the
    event as [updatedAt] and [lastActivity], and becomes active.  The
    store sees the same session.  When the topic of the event is not
    empty the user is connected from then on. *)
Theorem approval_connects_the_session_of_its_client env w user s args :
  reachable env any_call w ->
  session_of w user = Some s ->
  let w' := step env (event_session_connect (wcClient s) args) w in
  session_of w' user = Some (approve args (clock w) s) /\
  stored_of w' user = Some (approve args (clock w) s) /\
  (forall other, other <> user -> session_of w' other = session_of w other) /\
  (truthy (a_topic args) = true ->
   isConnected user w' = (Resolved true, w')).
Proof.
  intros Hreach Hsession. cbv zeta.
  pose proof (reachable_consistent _ _ _ Hreach) as Hcons.
  assert (Hreach' : reachable env any_call
            (step env (event_session_connect (wcClient s) args) w))
    by (apply reachable_step; [exact Hreach | exact Logic.I]).
  pose proof (reachable_consistent _ _ _ Hreach') as (Hdb' & _).
  unfold session_of in Hsession.
  destruct (JsMap.get user (userSessions w)) as [r|] eqn:Hget;
    simpl in Hsession; [|discriminate].
  assert (Hstep : exists w1,
    on_session_connect (wcClient s) args w = (Resolved tt, w1) /\
    userSessions w1 = userSessions w /\
    clock w1 = clock w /\
    heap w1 !! r = Some (approve args (clock w) s) /\
    forall r0, r0 <> r -> heap w1 !! r0 = heap w !! r0).
  { unfold on_session_connect. unfold bind at 1, gets at 1.
    rewrite (find_session_of_client w user r s Hcons Hget Hsession).
    cbv beta iota.
    unfold bind, Date_now, gets, assign, modify, deref, clearTimer, effect.
    cbv beta iota. cbn [heap with_heap].
    destruct (a_accounts args) as [|account accounts] eqn:Haccounts;
      cbv beta iota; cbn [heap with_heap ret];
      rewrite !list_lookup_alter_eq, Hsession;
      cbn [fmap option_fmap option_map]; cbv beta iota.
    all: unfold modify; eexists; (split; [reflexivity|]);
      cbn [userSessions clock heap with_trace];
      rewrite !clearTimer__heap, !clearTimer__userSessions, !clearTimer__clock;
      cbn [userSessions clock heap with_heap];
      rewrite !list_lookup_alter_eq, Hsession;
      cbn [fmap option_fmap option_map];
      (split; [reflexivity|]; split; [reflexivity|];
       split; [unfold approve; try rewrite Haccounts; reflexivity|];
       intros r0 Hne; rewrite !list_lookup_alter_ne by congruence; reflexivity). }
  destruct Hstep as (w1 & Hrun & Hreg & Hclock & Hr & Hothers).
  unfold step, run in Hdb' |- *. rewrite Hrun in Hdb' |- *. cbn [snd] in Hdb' |- *.
  assert (Hnew : session_of w1 user = Some (approve args (clock w) s)).
  { unfold session_of. rewrite Hreg, Hget. exact Hr. }
  split; [exact Hnew|]. split; [|split].
  - unfold stored_of. rewrite Hdb'. exact Hnew.
  - intros other Hne. unfold session_of. rewrite Hreg.
    destruct (JsMap.get other (userSessions w)) as [r0|] eqn:Hget0; [|reflexivity].
    simpl. apply Hothers. intros ->.
    destruct Hcons as (_ & _ & H3 & _).
    destruct (H3 other r (In_get _ _ _ Hget0)) as (s0 & Hs0 & Hu0 & _).
    destruct (H3 user r (In_get _ _ _ Hget)) as (s1 & Hs1 & Hu1 & _).
    congruence.
  - intros Htopic. unfold isConnected, bind, gets. cbv beta.
    rewrite Hreg, Hget. rewrite (validateSession_spec _ _ _ Hr), Hclock.
    unfold valid_at. cbn [isActive topic lastActivity approve].
    rewrite Htopic, Z.sub_diag. reflexivity.
Qed.

Lemma approval_connects_the_session_of_its_client_witness :
  let w := pending_world obliging_env in
  let args := mkEventArgs (Some "t1") None ["eip155:1:0xabc"] in
  let w' := step obliging_env (event_session_connect 0%nat args) w in
  session_of w' "u1" = Some approved_session /\
  isConnected "u1" w' = (Resolved true, w').
Proof.
  intros w args w'.
  destruct (approval_connects_the_session_of_its_client obliging_env w "u1"
              (mkSession "u1" 0%nat None None None false 1016 1016 1016) args
              (reachable_pending obliging_env))
    as (H1 & _ & _ & H4); [vm_compute; reflexivity|].
  split; [etransitivity; [exact H1 | vm_compute; reflexivity] |].
  exact (H4 eq_refl).
Defined.

(** ** [MemoryStorage]: access by key *)

Section storage_access.
Context (getItemSize : MemoryStorage.Item -> Z).
Implicit Types (m : JsMap.t MemoryStorage.Item) (this : MemoryStorage.t).

Lemma size_set m k v :
  match JsMap.get k m with
  | Some old =>
      JsMap.size (JsMap.set k v m) = JsMap.size m /\
      size_of_items getItemSize (JsMap.set k v m) =
        size_of_items getItemSize m - getItemSize old + getItemSize v
  | None =>
      JsMap.size (JsMap.set k v m) = S (JsMap.size m) /\
      size_of_items getItemSize (JsMap.set k v m) =
        size_of_items getItemSize m + getItemSize v
  end.
Proof.
  induction m as [|[k' v'] m IH]; simpl.
  - split; [reflexivity | lia].
  - destruct (decide (k = k')) as [->|Hne]; simpl.
    + split; [reflexivity | lia].
    + destruct (JsMap.get k m); destruct IH as [H1 H2];
        unfold JsMap.size in *; simpl; rewrite H1, H2; split; (reflexivity || lia).
Qed.

Lemma size_delete m k :
  NoDup (JsMap.keys m) ->
  match JsMap.get k m with
  | Some old =>
      S (JsMap.size (JsMap.delete k m)) = JsMap.size m /\
      size_of_items getItemSize (JsMap.delete k m) =
        size_of_items getItemSize m - getItemSize old
  | None => JsMap.delete k m = m
  end.
Proof.
  induction m as [|[k' v'] m IH]; simpl; intros Hnd; [reflexivity|].
  apply NoDup_cons in Hnd as [Hnotin Hnd].
  destruct (decide (k = k')) as [->|Hne]; simpl.
  - rewrite delete_absent by (rewrite <- list_elem_of_In; exact Hnotin).
    split; [reflexivity | lia].
  - specialize (IH Hnd). destruct (JsMap.get k m).
    + destruct IH as [H1 H2]. unfold JsMap.size in *. simpl.
      rewrite H1, H2. split; [reflexivity | lia].
    + rewrite IH. reflexivity.
Qed.

Lemma accounted_setItem now key value ttl this :
  accounted getItemSize this ->
  accounted getItemSize
    (MemoryStorageAccess.setItem getItemSize now key value ttl this).
Proof.
  intros (Hnd & Hitems & Hsize).
  unfold accounted, MemoryStorageAccess.setItem. simpl.
  split; [apply NoDup_keys_set, Hnd|]. split; [reflexivity|].
  pose proof (size_set (MemoryStorage.storage this) key
                (MemoryStorage.mkItem value now now
                   (MemoryStorageAccess.expiry now ttl))) as H.
  destruct (JsMap.get key (MemoryStorage.storage this));
    destruct H as [_ ->]; lia.
Qed.

Lemma accounted_removeItem key this :
  accounted getItemSize this ->
  accounted getItemSize (MemoryStorage.removeItem getItemSize key this).
Proof.
  intros (Hnd & Hitems & Hsize).
  unfold accounted, MemoryStorage.removeItem. simpl.
  split; [apply NoDup_keys_delete, Hnd|].
  pose proof (size_delete (MemoryStorage.storage this) key Hnd) as H.
  destruct (JsMap.get key (MemoryStorage.storage this)).
  - destruct H as [H1 H2]. simpl. rewrite H2. lia.
  - rewrite H. auto.
Qed.

Lemma accounted_hasKey now key this :
  accounted getItemSize this ->
  accounted getItemSize
    (snd (MemoryStorageAccess.hasKey getItemSize now key this)).
Proof.
  intros H. unfold MemoryStorageAccess.hasKey.
  destruct (JsMap.get key (MemoryStorage.storage this)) as [item|] eqn:Hget;
    [|exact H].
  destruct (MemoryStorageAccess.expired now item); [|exact H].
  apply accounted_removeItem, H.
Qed.

Lemma accounted_getItem now key (this : MemoryStorageAccess.t) :
  accounted getItemSize (MemoryStorageAccess.store this) ->
  accounted getItemSize
    (MemoryStorageAccess.store
       (snd (MemoryStorageAccess.getItem getItemSize now key this))).
Proof.
  intros H. unfold MemoryStorageAccess.getItem.
  destruct (JsMap.get key _) as [item|] eqn:Hget; [|exact H].
  destruct (MemoryStorageAccess.expired now item); [|exact H].
  apply accounted_removeItem, H.
Qed.

Lemma accounted_cleanup_loop now entries : forall this count,
  accounted getItemSize this ->
  accounted getItemSize
    (fst (MemoryStorage.cleanup_loop getItemSize now entries this count)).
Proof.
  induction entries as [|[key item] entries IH]; intros this count H;
    [exact H|].
  cbn [MemoryStorage.cleanup_loop].
  destruct (MemoryStorage.expiresAt item) as [e|]; [destruct (e <? now)|];
    apply IH; [apply accounted_removeItem | |]; exact H.
Qed.

Lemma accounted_cleanup now this :
  accounted getItemSize this ->
  accounted getItemSize (snd (MemoryStorage.cleanup getItemSize now this)).
Proof.
  intros H. unfold MemoryStorage.cleanup.
  pose proof (accounted_cleanup_loop now (MemoryStorage.storage this) this 0 H)
    as H'.
  destruct (MemoryStorage.cleanup_loop _ _ _ _ _) as [this' removed].
  exact H'.
Qed.

Lemma getEntries_loop_spec now todo : forall entries,
  MemoryStorageAccess.getEntries_loop now todo entries =
    (entries ++
     map (fun kv => (fst kv, MemoryStorage.value (snd kv)))
         (List.filter
            (fun kv => negb (MemoryStorageAccess.expired now (snd kv)))
            todo))%list.
Proof.
  induction todo as [|[key item] todo IH]; intros entries; simpl.
  - rewrite app_nil_r. reflexivity.
  - rewrite IH. destruct (MemoryStorageAccess.expired now item); simpl;
      [reflexivity|]. rewrite <- app_assoc. reflexivity.
Qed.

Lemma get_Some_In m k v : JsMap.get k m = Some v -> In (k, v) m.
Proof.
  induction m as [|[k' v'] m IH]; simpl; [discriminate|].
  destruct (decide (k = k')) as [->|Hne]; [intros [= ->]; auto | auto].
Qed.

Lemma In_get_Some m k v :
  NoDup (JsMap.keys m) -> In (k, v) m -> JsMap.get k m = Some v.
Proof.
  induction m as [|[k' v'] m IH]; simpl; intros Hnd Hin; [tauto|].
  apply NoDup_cons in Hnd as [Hnotin Hnd].
  destruct (decide (k = k')) as [->|Hne].
  - destruct Hin as [[= ->]|Hin]; [reflexivity|].
    exfalso. apply Hnotin. rewrite list_elem_of_In.
    apply (in_map fst) in Hin. exact Hin.
  - destruct Hin as [[= ? ?]|Hin]; [congruence | auto].
Qed.
End storage_access.

(** [setItem] and [getItem] round-trip until the item expires: an item
    stored with no [ttl] or a [ttl] of 0 is returned at any time, one
    stored with a [ttl] is returned up to and including the instant
    [now + ttl * 1000], and each such lookup counts a hit and changes
    nothing else.  After that instant [getItem] resolves with [undefined],
    removes the item and counts a miss.  [setItem] leaves the items under
    the other keys as they were. *)
Theorem stored_item_is_returned_until_it_expires
        getItemSize now later key value ttl
        (this : MemoryStorageAccess.t) :
  let stored :=
    MemoryStorageAccess.mkAccess
      (MemoryStorageAccess.setItem getItemSize now key value ttl
         (MemoryStorageAccess.store this))
      (MemoryStorageAccess.hitRate this) (MemoryStorageAccess.missRate this) in
  let result := MemoryStorageAccess.getItem getItemSize later key stored in
  (match MemoryStorageAccess.expiry now ttl with
   | Some deadline => later <= deadline
   | None => True
   end ->
   result = (Some value, MemoryStorageAccess.updateStats
                           MemoryStorageAccess.hit stored)) /\
  (forall seconds,
     ttl = Some seconds -> seconds <> 0 -> now + seconds * 1000 < later ->
     fst result = None /\
     JsMap.get key (MemoryStorage.storage
                      (MemoryStorageAccess.store (snd result))) = None /\
     MemoryStorageAccess.missRate (snd result) =
       MemoryStorageAccess.missRate this + 1 /\
     MemoryStorageAccess.hitRate (snd result) =
       MemoryStorageAccess.hitRate this) /\
  (forall other,
     other <> key ->
     JsMap.get other (MemoryStorage.storage
                        (MemoryStorageAccess.store stored)) =
     JsMap.get other (MemoryStorage.storage
                        (MemoryStorageAccess.store this))).
Proof.
  cbv zeta.
  unfold MemoryStorageAccess.getItem, MemoryStorageAccess.setItem.
  cbn [MemoryStorageAccess.store MemoryStorage.storage].
  rewrite get_set_eq.
  unfold MemoryStorageAccess.expired. cbn [MemoryStorage.expiresAt].
  split; [|split].
  - intros Hlive.
    destruct (MemoryStorageAccess.expiry now ttl) as [deadline|];
      [|reflexivity].
    destruct (Z.ltb_spec deadline later); [lia | reflexivity].
  - intros seconds -> Hnz Hlate. unfold MemoryStorageAccess.expiry.
    destruct (Z.eqb_spec seconds 0); [contradiction|].
    destruct (Z.ltb_spec (now + seconds * 1000) later); [|lia].
    cbn [fst snd MemoryStorageAccess.updateStats MemoryStorageAccess.store
         MemoryStorageAccess.missRate MemoryStorageAccess.hitRate
         MemoryStorage.removeItem MemoryStorage.storage].
    split; [reflexivity|]. split; [apply get_delete_eq|].
    split; reflexivity.
  - intros other Hne. apply get_set_ne, Hne.
Qed.

Lemma stored_item_is_returned_until_it_expires_witness :
  let stored :=
    MemoryStorageAccess.setItem (fun _ => 1) 1000 "k" (JStr "v") (Some 60)
      (MemoryStorageAccess.store (MemoryStorageAccess.new 0)) in
  fst (MemoryStorageAccess.getItem (fun _ => 1) 61000 "k"
         (MemoryStorageAccess.mkAccess stored 0 0)) = Some (JStr "v") /\
  fst (MemoryStorageAccess.getItem (fun _ => 1) 61001 "k"
         (MemoryStorageAccess.mkAccess stored 0 0)) = None.
Proof.
  intros stored. split.
  - destruct (stored_item_is_returned_until_it_expires (fun _ => 1) 1000 61000
                "k" (JStr "v") (Some 60) (MemoryStorageAccess.new 0))
      as (H & _ & _).
    exact (f_equal fst (H ltac:(simpl; lia))).
  - destruct (stored_item_is_returned_until_it_expires (fun _ => 1) 1000 61001
                "k" (JStr "v") (Some 60) (MemoryStorageAccess.new 0))
      as (_ & H & _).
    exact (proj1 (H 60 eq_refl ltac:(lia) ltac:(lia))).
Defined.

(** The counters of the storage stay exact: when [stats.totalItems] is
    the number of stored items and [stats.totalSize] the sum of their
    sizes, they still are after [setItem], [removeItem], [clear],
    [hasKey], [getItem] and [cleanup], whether or not the key exists and
    whether or not items have expired. *)
Theorem stats_account_for_the_items
        getItemSize now key value ttl (this : MemoryStorageAccess.t) :
  accounted getItemSize (MemoryStorageAccess.store this) ->
  let s := MemoryStorageAccess.store this in
  accounted getItemSize
    (MemoryStorageAccess.setItem getItemSize now key value ttl s) /\
  accounted getItemSize (MemoryStorage.removeItem getItemSize key s) /\
  accounted getItemSize (MemoryStorageAccess.clear s) /\
  accounted getItemSize
    (snd (MemoryStorageAccess.hasKey getItemSize now key s)) /\
  accounted getItemSize
    (MemoryStorageAccess.store
       (snd (MemoryStorageAccess.getItem getItemSize now key this))) /\
  accounted getItemSize (snd (MemoryStorage.cleanup getItemSize now s)).
Proof.
  intros H s. subst s.
  split; [apply accounted_setItem, H|].
  split; [apply accounted_removeItem, H|].
  split; [repeat split; constructor|].
  split; [apply accounted_hasKey, H|].
  split; [apply accounted_getItem, H | apply accounted_cleanup, H].
Qed.

Lemma stats_account_for_the_items_witness :
  accounted (fun _ => 1)
    (MemoryStorageAccess.setItem (fun _ => 1) 1000 "k" (JStr "v") (Some 60)
       (MemoryStorageAccess.store (MemoryStorageAccess.new 0))).
Proof.
  refine (proj1 (stats_account_for_the_items (fun _ => 1) 1000 "k" (JStr "v")
                   (Some 60) (MemoryStorageAccess.new 0) _)).
  repeat split; constructor.
Defined.

(** [hasKey], [getItem] and [getEntries] agree on the keys that are there:
    [hasKey(key)] is true exactly when [getItem(key)] resolves with the
    stored value, and exactly when [getEntries] lists the key; the entries
    are the items that have not expired, in insertion order.  [hasKey] and
    [getItem] leave the same items behind: an expired item under the key
    is removed, every other key keeps its item. *)
Theorem hasKey_getItem_getEntries_agree
        getItemSize now key (this : MemoryStorageAccess.t) :
  let s := MemoryStorageAccess.store this in
  let has := MemoryStorageAccess.hasKey getItemSize now key s in
  let got := MemoryStorageAccess.getItem getItemSize now key this in
  NoDup (JsMap.keys (MemoryStorage.storage s)) ->
  (fst has = true <->
   exists item, JsMap.get key (MemoryStorage.storage s) = Some item /\
                fst got = Some (MemoryStorage.value item)) /\
  (fst has = false -> fst got = None) /\
  (fst has = true <->
   In key (map fst (MemoryStorageAccess.getEntries now s))) /\
  MemoryStorageAccess.getEntries now s =
    map (fun kv => (fst kv, MemoryStorage.value (snd kv)))
        (List.filter
           (fun kv => negb (MemoryStorageAccess.expired now (snd kv)))
           (MemoryStorage.storage s)) /\
  MemoryStorageAccess.store (snd got) = snd has /\
  (fst has = false ->
   JsMap.get key (MemoryStorage.storage (snd has)) = None) /\
  (fst has = true -> snd has = s) /\
  (forall other,
     other <> key ->
     JsMap.get other (MemoryStorage.storage (snd has)) =
     JsMap.get other (MemoryStorage.storage s)).
Proof.
  cbv zeta. intros Hnd.
  assert (Hentries : MemoryStorageAccess.getEntries now
                       (MemoryStorageAccess.store this) =
    map (fun kv => (fst kv, MemoryStorage.value (snd kv)))
        (List.filter
           (fun kv => negb (MemoryStorageAccess.expired now (snd kv)))
           (MemoryStorage.storage (MemoryStorageAccess.store this)))).
  { unfold MemoryStorageAccess.getEntries. apply getEntries_loop_spec. }
  assert (Hlisted :
    In key (map fst (MemoryStorageAccess.getEntries now
                       (MemoryStorageAccess.store this))) <->
    exists item,
      JsMap.get key (MemoryStorage.storage (MemoryStorageAccess.store this)) =
        Some item /\
      MemoryStorageAccess.expired now item = false).
  { rewrite Hentries, map_map. cbn [fst]. rewrite in_map_iff. split.
    - intros ([k item] & <- & Hin). apply filter_In in Hin as [Hin Hlive].
      exists item. split; [apply In_get_Some; assumption|].
      apply negb_true_iff, Hlive.
    - intros (item & Hget & Hlive). exists (key, item).
      split; [reflexivity|]. apply filter_In.
      split; [apply get_Some_In, Hget|]. simpl. rewrite Hlive. reflexivity. }
  rewrite Hlisted.
  unfold MemoryStorageAccess.hasKey, MemoryStorageAccess.getItem.
  destruct (JsMap.get key _) as [item|] eqn:Hget.
  - destruct (MemoryStorageAccess.expired now item) eqn:Hexp;
      cbn [fst snd MemoryStorageAccess.updateStats MemoryStorageAccess.store].
    + split; [split; [discriminate | intros (i & [= <-] & [=])]|].
      split; [reflexivity|].
      split; [split; [discriminate | intros (i & [= <-] & ?); congruence]|].
      split; [exact Hentries|]. split; [reflexivity|].
      split; [intros _; apply get_delete_eq|].
      split; [discriminate|].
      intros other Hne. apply get_delete_ne, Hne.
    + split; [split; [intros _; exists item; auto | reflexivity]|].
      split; [discriminate|].
      split; [split; [intros _; exists item; auto | reflexivity]|].
      split; [exact Hentries|]. split; [reflexivity|].
      split; [discriminate|]. split; [reflexivity|]. reflexivity.
  - cbn [fst snd MemoryStorageAccess.updateStats MemoryStorageAccess.store].
    split; [split; [discriminate | intros (i & [=] & _)]|].
    split; [reflexivity|].
    split; [split; [discriminate | intros (i & [=] & _)]|].
    split; [exact Hentries|]. split; [reflexivity|].
    split; [intros _; exact Hget|]. split; [discriminate|]. reflexivity.
Qed.

Lemma hasKey_getItem_getEntries_agree_witness :
  MemoryStorageAccess.getEntries sweep_now three_items_store =
    [("k1", JStr "v1"); ("k3", JStr "v3")].
Proof.
  refine (proj1 (proj2 (proj2 (proj2
    (hasKey_getItem_getEntries_agree (fun _ => 0) sweep_now "k2"
       (MemoryStorageAccess.mkAccess three_items_store 0 0) _))))).
  simpl. repeat constructor;
    rewrite ?elem_of_cons, ?elem_of_nil; intuition discriminate.
Defined.
